(** * DF-World XML import (build.py): a shallow embedding and its properties

    The development follows build.py top to bottom:
    - [Py]: the Python values the flattener produces (str, dict, list) and the
      few dict and iteration primitives the importers use on them;
    - [xml_to_dict]: the flattener;
    - [Sanitizer]: [sanitize_xml_file], byte level (CP437 in, UTF-8 out);
    - [Sql]: the statements build.py sends to sqlite3, over tables of rows;
    - [Json]: [json.dumps] as used for the residual payload, with a decoder;
    - the importers, [stream_elements] and [run_import] in a state and
      exception monad.

    Python's [str] is modelled by the [string] of its UTF-8 bytes, with
    [Py.points] for its code points.  Dicts are association lists in
    insertion order, which is the order [items()] and [json.dumps]
    follow. *)

From Stdlib Require Import ZArith NArith String Ascii List.
From Stdlib.Strings Require Import Byte.
From stdpp Require Import gmap strings list fin_maps infinite.
From Equations Require Import Equations.
From Equations.Prop Require Import Logic.

Set Warnings "-register-all".
Local Open Scope string_scope.
Local Open Scope list_scope.

(** The double quote, U+0022, as a character and as a one-character string. *)
Definition dquote : ascii := ascii_of_nat 34.
Definition DQ : string := String dquote EmptyString.

(* ===================================================================== *)
(** ** Python values *)
(* ===================================================================== *)

Module Py.

(** What [xml_to_dict] can put in a record: text, a nested record, or the
    list a repeated tag is promoted to. *)
Inductive value :=
| VStr (s : string)
| VDict (d : list (string * value))
| VList (l : list value).

Definition dict := list (string * value).

(** [d.get(k)] *)
Fixpoint dict_get (k : string) (d : dict) : option value :=
  match d with
  | [] => None
  | (k', v) :: d' => if String.eqb k' k then Some v else dict_get k d'
  end.

(** [d[k] = v]: an existing key keeps its position, a new key goes last. *)
Fixpoint dict_set (k : string) (v : value) (d : dict) : dict :=
  match d with
  | [] => [(k, v)]
  | (k', v') :: d' =>
      if String.eqb k' k then (k, v) :: d' else (k', v') :: dict_set k v d'
  end.

(** [k in d] *)
Definition dict_mem (k : string) (d : dict) : bool :=
  match dict_get k d with Some _ => true | None => false end.

Definition keys (d : dict) : list string := map fst d.

(** [bool(x)] for the result of a [.get]: [None], [''], [{}] and [[]] are
    false. *)
Definition truthy (o : option value) : bool :=
  match o with
  | None => false
  | Some (VStr s) => negb (String.eqb s "")
  | Some (VDict d) => match d with [] => false | _ => true end
  | Some (VList l) => match l with [] => false | _ => true end
  end.

(** [a or b] *)
Definition py_or (a b : option value) : option value :=
  if truthy a then a else b.

Definition is_dict (v : value) : bool :=
  match v with VDict _ => true | _ => false end.

Definition is_str (v : value) : bool :=
  match v with VStr _ => true | _ => false end.

(** A Python str is a sequence of code points.  It is held here as the
    [string] of its UTF-8 bytes, which is what lxml reads from the
    sanitized file and what sqlite3 stores.  Equality, emptiness and dict
    lookup read the same on the bytes as on the code points; [json.dumps]
    and a loop over a str need the code points themselves.  [utf8] is the
    encoding of one code point and [code_points] reads the bytes back. *)
Definition utf8 (c : N) : list ascii :=
  (if c <? 0x80 then [ascii_of_N c]
   else if c <? 0x800 then
     [ascii_of_N (0xc0 + c / 64); ascii_of_N (0x80 + c mod 64)]
   else if c <? 0x10000 then
     [ascii_of_N (0xe0 + c / 4096); ascii_of_N (0x80 + (c / 64) mod 64);
      ascii_of_N (0x80 + c mod 64)]
   else
     [ascii_of_N (0xf0 + c / 262144); ascii_of_N (0x80 + (c / 4096) mod 64);
      ascii_of_N (0x80 + (c / 64) mod 64); ascii_of_N (0x80 + c mod 64)])%N.

Fixpoint code_points (s : list ascii) : list N :=
  match s with
  | [] => []
  | b0 :: r0 =>
      let n0 := N_of_ascii b0 in
      if (n0 <? 0x80)%N then n0 :: code_points r0
      else if (n0 <? 0xe0)%N then
        match r0 with
        | b1 :: r1 =>
            ((n0 - 0xc0) * 64 + (N_of_ascii b1 - 0x80))%N :: code_points r1
        | [] => [n0]
        end
      else if (n0 <? 0xf0)%N then
        match r0 with
        | b1 :: b2 :: r2 =>
            ((n0 - 0xe0) * 4096 + (N_of_ascii b1 - 0x80) * 64 +
             (N_of_ascii b2 - 0x80))%N :: code_points r2
        | _ => [n0]
        end
      else
        match r0 with
        | b1 :: b2 :: b3 :: r3 =>
            ((n0 - 0xf0) * 262144 + (N_of_ascii b1 - 0x80) * 4096 +
             (N_of_ascii b2 - 0x80) * 64 + (N_of_ascii b3 - 0x80))%N
            :: code_points r3
        | _ => [n0]
        end
  end.

Definition points (s : string) : list N := code_points (list_ascii_of_string s).

Definition encode (pts : list N) : string :=
  string_of_list_ascii (concat (map utf8 pts)).

(** The code points UTF-8 encodes: all but the surrogates, up to U+10FFFF. *)
Definition scalar_value (c : N) : bool :=
  ((c <? 0xd800) || ((0xdfff <? c) && (c <? 0x110000)))%N.

(** The strings that hold a str: the bytes are the encoding of the code
    points read from them, and these are scalar values.  Bytes that are
    not well-formed UTF-8 fail the first test, an encoded surrogate the
    second. *)
Definition is_text (s : string) : bool :=
  forallb scalar_value (points s) && String.eqb (encode (points s)) s.

(** The characters of a str, each a str of its own. *)
Definition chars (s : string) : list string :=
  map (fun c => encode [c]) (points s).

(** [for x in v]: a list yields its items, a dict its keys, a str its
    characters. *)
Definition iter (v : value) : list value :=
  match v with
  | VList l => l
  | VDict d => map VStr (keys d)
  | VStr s => map VStr (chars s)
  end.

(** Every key of a dict, at every depth, occurs once. *)
Fixpoint wf (v : value) : Prop :=
  match v with
  | VStr _ => True
  | VDict d =>
      NoDup (map fst d) /\
      (fix all (d : list (string * value)) : Prop :=
         match d with [] => True | (_, v) :: d' => wf v /\ all d' end) d
  | VList l =>
      (fix all (l : list value) : Prop :=
         match l with [] => True | v :: l' => wf v /\ all l' end) l
  end.

(** Every key and every text of a value, at every depth, holds a str. *)
Fixpoint encoded (v : value) : bool :=
  match v with
  | VStr s => is_text s
  | VDict d =>
      (fix all (d : list (string * value)) : bool :=
         match d with
         | [] => true
         | (k, v) :: d' => is_text k && encoded v && all d'
         end) d
  | VList l =>
      (fix all (l : list value) : bool :=
         match l with [] => true | v :: l' => encoded v && all l' end) l
  end.

End Py.
Import Py.

(* ===================================================================== *)
(** ** The flattener *)
(* ===================================================================== *)

(** An lxml element as [xml_to_dict] reads it: [tag], [text] (which may be
    [None]) and the child elements that iterating it yields. *)
Inductive element :=
| Element (tag : string) (text : option string) (children : list element).

Definition tag (e : element) : string := let 'Element t _ _ := e in t.
Definition text (e : element) : option string := let 'Element _ x _ := e in x.
Definition children (e : element) : list element := let 'Element _ _ c := e in c.

(** The body of [if tag in result: ... else: ...]. *)
Definition add_child (result : dict) (tg : string) (v : value) : dict :=
  match dict_get tg result with
  | Some old =>
      let lst := match old with VList l => l | _ => [old] end in
      dict_set tg (VList (lst ++ [v])) result
  | None => dict_set tg v result
  end.

(** [child.text or ''] *)
Definition text_or_empty (e : element) : string :=
  match text e with Some s => s | None => "" end.

Fixpoint xml_to_dict (e : element) : dict :=
  match e with
  | Element _ _ cs =>
      fold_left
        (fun result child =>
           add_child result (tag child)
             (match children child with
              | [] => VStr (text_or_empty child)
              | _ :: _ => VDict (xml_to_dict child)
              end))
        cs []
  end.

(** The value one child contributes: [xml_to_dict(child)] when [len(child)]
    is non-zero, its text otherwise. *)
Definition child_value (c : element) : value :=
  match children c with
  | [] => VStr (text_or_empty c)
  | _ :: _ => VDict (xml_to_dict c)
  end.

(** The children of [e] named [t], in document order. *)
Definition occurrences (t : string) (e : element) : list element :=
  List.filter (fun c => String.eqb (tag c) t) (children e).

(** What the flattener leaves under a tag that occurred with the values
    [vs], in order: nothing, the value itself, or the list of them. *)
Definition promote (vs : list value) : option value :=
  match vs with
  | [] => None
  | [v] => Some v
  | _ => Some (VList vs)
  end.

(* ===================================================================== *)
(** ** The sanitizer *)
(* ===================================================================== *)

Module Sanitizer.

Local Open Scope N_scope.

(** Python's cp437 codec, upper half (bytes 0x80 .. 0xFF); the lower half
    is the identity. *)
Definition cp437_high : list N :=
  [ 0xc7; 0xfc; 0xe9; 0xe2; 0xe4; 0xe0; 0xe5; 0xe7;
    0xea; 0xeb; 0xe8; 0xef; 0xee; 0xec; 0xc4; 0xc5;
    0xc9; 0xe6; 0xc6; 0xf4; 0xf6; 0xf2; 0xfb; 0xf9;
    0xff; 0xd6; 0xdc; 0xa2; 0xa3; 0xa5; 0x20a7; 0x192;
    0xe1; 0xed; 0xf3; 0xfa; 0xf1; 0xd1; 0xaa; 0xba;
    0xbf; 0x2310; 0xac; 0xbd; 0xbc; 0xa1; 0xab; 0xbb;
    0x2591; 0x2592; 0x2593; 0x2502; 0x2524; 0x2561; 0x2562; 0x2556;
    0x2555; 0x2563; 0x2551; 0x2557; 0x255d; 0x255c; 0x255b; 0x2510;
    0x2514; 0x2534; 0x252c; 0x251c; 0x2500; 0x253c; 0x255e; 0x255f;
    0x255a; 0x2554; 0x2569; 0x2566; 0x2560; 0x2550; 0x256c; 0x2567;
    0x2568; 0x2564; 0x2565; 0x2559; 0x2558; 0x2552; 0x2553; 0x256b;
    0x256a; 0x2518; 0x250c; 0x2588; 0x2584; 0x258c; 0x2590; 0x2580;
    0x3b1; 0xdf; 0x393; 0x3c0; 0x3a3; 0x3c3; 0xb5; 0x3c4;
    0x3a6; 0x398; 0x3a9; 0x3b4; 0x221e; 0x3c6; 0x3b5; 0x2229;
    0x2261; 0xb1; 0x2265; 0x2264; 0x2320; 0x2321; 0xf7; 0x2248;
    0xb0; 0x2219; 0xb7; 0x221a; 0x207f; 0xb2; 0x25a0; 0xa0 ].

(** [chunk.decode('cp437', errors='replace')], one byte; every byte has a
    character, so the replacement character is never produced. *)
Definition cp437_decode (b : byte) : N :=
  let n := Byte.to_N b in
  if n <? 128 then n else nth (N.to_nat (n - 128)) cp437_high 0xfffd.

(** [invalid_chars]: the class [[\x00-\x08\x0b\x0c\x0e-\x1f]]. *)
Definition invalid_chars (c : N) : bool :=
  (c <=? 0x08) || (c =? 0x0b) || (c =? 0x0c) || ((0x0e <=? c) && (c <=? 0x1f)).

(** [invalid_chars.sub('', text)] *)
Definition strip (text : list N) : list N :=
  List.filter (fun c => negb (invalid_chars c)) text.

Definition codes (s : string) : list N :=
  map (fun b => Byte.to_N b) (list_byte_of_string s).

(** One item of a regular expression that is a plain sequence: a literal
    (compared case-insensitively, re.IGNORECASE) or a character class. *)
Inductive item :=
| Lit (c : N)
| Class (cs : list N).

(** Lower case of an ASCII letter.  The text comes out of [cp437_decode],
    where no other character folds to a letter of the pattern. *)
Definition lower (c : N) : N :=
  if (0x41 <=? c) && (c <=? 0x5a) then c + 32 else c.

Definition item_matches (i : item) (c : N) : bool :=
  match i with
  | Lit l => lower c =? lower l
  | Class cs => existsb (N.eqb c) cs
  end.

Definition quotes : list N := [0x22; 0x27].

(** [encoding_pattern]: [encoding=["\']CP437["\']], re.IGNORECASE. *)
Definition encoding_pattern : list item :=
  map Lit (codes "encoding=") ++ [Class quotes] ++
  map Lit (codes "CP437") ++ [Class quotes].

(** The replacement string, [encoding="UTF-8"]. *)
Definition replacement : list N :=
  codes "encoding=" ++ [0x22] ++ codes "UTF-8" ++ [0x22].

(** Does the pattern match at the start of [text]? *)
Fixpoint matches (p : list item) (text : list N) : bool :=
  match p, text with
  | [], _ => true
  | i :: p', c :: text' => item_matches i c && matches p' text'
  | _ :: _, [] => false
  end.

(** [encoding_pattern.sub(replacement, text)]: scan left to right; at a
    match emit the replacement and resume after the matched characters
    ([skip] counts those still to pass over); otherwise copy one
    character. *)
Fixpoint sub_from (skip : nat) (text : list N) : list N :=
  match text with
  | [] => []
  | c :: rest =>
      match skip with
      | S k => sub_from k rest
      | O =>
          if matches encoding_pattern text
          then replacement ++ sub_from (Nat.pred (length encoding_pattern)) rest
          else c :: sub_from O rest
      end
  end.

Definition sub (text : list N) : list N := sub_from O text.

(** [encoding_pattern.search(text)]: where the first match starts. *)
Fixpoint search (text : list N) : option nat :=
  match text with
  | [] => None
  | _ :: rest =>
      if matches encoding_pattern text then Some O
      else option_map S (search rest)
  end.

Definition byte_of (n : N) : byte :=
  match Byte.of_N n with Some b => b | None => x00 end.

(** [str.encode('utf-8')], one character. *)
Definition utf8_char (c : N) : list byte :=
  if c <? 0x80 then [byte_of c]
  else if c <? 0x800 then
    [byte_of (0xc0 + c / 64); byte_of (0x80 + c mod 64)]
  else if c <? 0x10000 then
    [byte_of (0xe0 + c / 4096); byte_of (0x80 + (c / 64) mod 64);
     byte_of (0x80 + c mod 64)]
  else
    [byte_of (0xf0 + c / 262144); byte_of (0x80 + (c / 4096) mod 64);
     byte_of (0x80 + (c / 64) mod 64); byte_of (0x80 + c mod 64)].

Definition utf8_encode (text : list N) : list byte :=
  concat (map utf8_char text).

(** [infile.read(n)]: up to [n] bytes and the rest of the stream. *)
Fixpoint read (n : N) (stream : list byte) : list byte * list byte :=
  match stream with
  | [] => ([], [])
  | b :: stream' =>
      if n =? 0 then ([], stream)
      else let '(chunk, rest) := read (N.pred n) stream' in (b :: chunk, rest)
  end.

(** The [while True] loop of [sanitize_xml_file]: the bytes written to
    [outfile].  [first_chunk] is the flag of the source. *)
Equations? sanitize_loop (size : N) (first_chunk : bool) (infile : list byte)
  : list byte by wf (length infile) lt :=
  sanitize_loop size first_chunk infile with inspect (read size infile) := {
    | exist _ (nil, _) _ => [];
    | exist _ (cons b chunk, rest) E =>
        let text := map cp437_decode (b :: chunk) in
        let text := strip text in
        let text := if first_chunk then sub text else text in
        utf8_encode text ++ sanitize_loop size false rest }.
Proof.
  clear - E. revert size b chunk rest E.
  induction infile as [|a s IH]; intros size b chunk rest; simpl.
  - discriminate.
  - destruct (size =? 0); [discriminate|].
    destruct (read (N.pred size) s) as [c r] eqn:E. intros [= _ _ <-].
    destruct c as [|b' c'].
    + destruct s; simpl in E.
      * injection E as <-. simpl. lia.
      * destruct (N.pred size =? 0).
        -- injection E as <-. simpl. lia.
        -- destruct (read (N.pred (N.pred size)) s); discriminate.
    + apply IH in E. simpl. lia.
Qed.

(** The content of the temporary file [sanitize_xml_file] returns: the
    loop entered with [first_chunk = True] and 1 MB reads. *)
Definition sanitize_bytes (infile : list byte) : list byte :=
  sanitize_loop (1024 * 1024) true infile.

(** The rewriting as the specification words it: the declaration is
    rewritten once, and no other occurrence of the pattern is touched. *)
Fixpoint spec_sub_once (text : list N) : list N :=
  match text with
  | [] => []
  | c :: rest =>
      if matches encoding_pattern text
      then replacement ++ skipn (Nat.pred (length encoding_pattern)) rest
      else c :: spec_sub_once rest
  end.

Definition spec_sanitize_once (infile : list byte) : list byte :=
  let '(chunk, rest) := read (1024 * 1024) infile in
  utf8_encode (spec_sub_once (strip (map cp437_decode chunk))) ++
  utf8_encode (strip (map cp437_decode rest)).

(** A character that [invalid_chars] does not remove and whose UTF-8
    encoding holds none of the removed bytes. *)
Definition clean (c : N) : Prop :=
  invalid_chars c = false /\
  Forall (fun b => invalid_chars (Byte.to_N b) = false) (utf8_char c).

(** A document that carries the pattern twice in its first chunk: in the
    declaration and in the text of an element. *)
Definition two_occurrences : list byte :=
  list_byte_of_string
    ("<?xml version='1.0' encoding=" +:+ DQ +:+ "CP437" +:+ DQ +:+
     "?><a>encoding='cp437'</a>").

End Sanitizer.

(* ===================================================================== *)
(** ** json.dumps and json.loads on flattened values *)
(* ===================================================================== *)

Module Json.

Local Open Scope char_scope.

Definition hex_digit (n : N) : ascii :=
  List.nth (N.to_nat n)
    ["0"; "1"; "2"; "3"; "4"; "5"; "6"; "7"; "8"; "9";
     "a"; "b"; "c"; "d"; "e"; "f"] "0".

(** [\uXXXX]: four lower-case hexadecimal digits. *)
Definition hex4 (n : N) : list ascii :=
  [hex_digit (n / 4096); hex_digit ((n / 256) mod 16);
   hex_digit ((n / 16) mod 16); hex_digit (n mod 16)]%N.

(** [json.dumps] with its defaults (ensure_ascii), one code point: the
    short escapes; [\uXXXX] for every other code point outside space ..
    tilde, and for one above U+FFFF the two escapes of its surrogate
    pair. *)
Definition escape_point (c : N) : list ascii :=
  if (c =? 34)%N then ["\"; dquote]
  else if (c =? 92)%N then ["\"; "\"]
  else if (c =? 10)%N then ["\"; "n"]
  else if (c =? 13)%N then ["\"; "r"]
  else if (c =? 9)%N then ["\"; "t"]
  else if (c =? 8)%N then ["\"; "b"]
  else if (c =? 12)%N then ["\"; "f"]
  else if ((c <? 32) || (126 <? c))%N then
    if (c <? 0x10000)%N then "\" :: "u" :: hex4 c
    else
      let v := (c - 0x10000)%N in
      ("\" :: "u" :: hex4 (0xd800 + v / 1024)) ++
      ("\" :: "u" :: hex4 (0xdc00 + v mod 1024))
  else [ascii_of_N c].

Definition escape (s : string) : list ascii :=
  concat (map escape_point (points s)).

Definition quote (s : string) : list ascii := dquote :: escape s ++ [dquote].

(** Items are separated by [", "], a key from its value by [": "]. *)
Fixpoint dumps (v : value) : list ascii :=
  match v with
  | VStr s => quote s
  | VDict d =>
      "{" ::
      (fix members (d : list (string * value)) : list ascii :=
         match d with
         | [] => ["}"]
         | (k, v) :: d' =>
             quote k ++ [":"; " "] ++ dumps v ++
             match d' with [] => [] | _ :: _ => [","; " "] end ++ members d'
         end) d
  | VList l =>
      "[" ::
      (fix items (l : list value) : list ascii :=
         match l with
         | [] => ["]"]
         | v :: l' =>
             dumps v ++
             match l' with [] => [] | _ :: _ => [","; " "] end ++ items l'
         end) l
  end.

(** The text of an object after its opening brace, and of an array after
    its opening bracket. *)
Definition members_text (d : list (string * value)) : list ascii :=
  (fix members (d : list (string * value)) : list ascii :=
     match d with
     | [] => ["}"]
     | (k, v) :: d' =>
         quote k ++ [":"; " "] ++ dumps v ++
         match d' with [] => [] | _ :: _ => [","; " "] end ++ members d'
     end) d.

Definition items_text (l : list value) : list ascii :=
  (fix items (l : list value) : list ascii :=
     match l with
     | [] => ["]"]
     | v :: l' =>
         dumps v ++
         match l' with [] => [] | _ :: _ => [","; " "] end ++ items l'
     end) l.

Definition json_dumps (v : value) : string := string_of_list_ascii (dumps v).

Definition is_ws (c : ascii) : bool :=
  let n := N_of_ascii c in
  ((n =? 32) || (n =? 9) || (n =? 10) || (n =? 13))%N.

Fixpoint skip_ws (s : list ascii) : list ascii :=
  match s with
  | c :: s' => if is_ws c then skip_ws s' else s
  | [] => []
  end.

Definition unhex (c : ascii) : option N :=
  let n := N_of_ascii c in
  if ((48 <=? n) && (n <=? 57))%N then Some (n - 48)%N
  else if ((97 <=? n) && (n <=? 102))%N then Some (n - 87)%N
  else if ((65 <=? n) && (n <=? 70))%N then Some (n - 55)%N
  else None.

Definition unhex4 (h1 h2 h3 h4 : ascii) : option N :=
  match unhex h1, unhex h2, unhex h3, unhex h4 with
  | Some a, Some b, Some c, Some d => Some (((a * 16 + b) * 16 + c) * 16 + d)%N
  | _, _, _, _ => None
  end.

(** The bytes [l] put in front of a parsed string. *)
Definition push (l : list ascii) (parsed : option (string * list ascii))
  : option (string * list ascii) :=
  match parsed with
  | Some (str, rest) => Some (fold_right String str l, rest)
  | None => None
  end.

(** The characters of a string literal after its opening quote, and what
    follows the closing quote.  A [\uXXXX] escape gives the code point
    written; a high surrogate followed by the escape of a low one gives
    the code point of the pair. *)
Fixpoint parse_chars (s : list ascii) : option (string * list ascii) :=
  match s with
  | [] => None
  | c :: r =>
      if (N_of_ascii c =? 34)%N then Some (EmptyString, r)
      else if (N_of_ascii c =? 92)%N then
        match r with
        | [] => None
        | e :: r1 =>
            let plain (x : ascii) := push [x] (parse_chars r1) in
            if (N_of_ascii e =? 117)%N then
              match r1 with
              | h1 :: h2 :: h3 :: h4 :: r2 =>
                  match unhex4 h1 h2 h3 h4 with
                  | Some uni =>
                      if ((0xd800 <=? uni) && (uni <=? 0xdbff))%N then
                        match r2 with
                        | b :: u :: r3 =>
                            if ((N_of_ascii b =? 92) && (N_of_ascii u =? 117))%N then
                              match r3 with
                              | g1 :: g2 :: g3 :: g4 :: r4 =>
                                  match unhex4 g1 g2 g3 g4 with
                                  | Some uni2 =>
                                      if ((0xdc00 <=? uni2) && (uni2 <=? 0xdfff))%N
                                      then
                                        push
                                          (utf8 (0x10000 + (uni - 0xd800) * 1024 +
                                                 (uni2 - 0xdc00))%N)
                                          (parse_chars r4)
                                      else push (utf8 uni) (parse_chars r2)
                                  | None => None
                                  end
                              | _ => None
                              end
                            else push (utf8 uni) (parse_chars r2)
                        | _ => push (utf8 uni) (parse_chars r2)
                        end
                      else push (utf8 uni) (parse_chars r2)
                  | None => None
                  end
              | _ => None
              end
            else if (N_of_ascii e =? 34)%N then plain dquote
            else if (N_of_ascii e =? 92)%N then plain "\"
            else if (N_of_ascii e =? 47)%N then plain "/"
            else if (N_of_ascii e =? 110)%N then plain (ascii_of_N 10)
            else if (N_of_ascii e =? 114)%N then plain (ascii_of_N 13)
            else if (N_of_ascii e =? 116)%N then plain (ascii_of_N 9)
            else if (N_of_ascii e =? 98)%N then plain (ascii_of_N 8)
            else if (N_of_ascii e =? 102)%N then plain (ascii_of_N 12)
            else None
        end
      else if (N_of_ascii c <? 32)%N then None
      else push [c] (parse_chars r)
  end.

(** The decoder on the documents [json.dumps] writes for flattened
    values: strings, objects and arrays.  [fuel] bounds the nesting and
    the number of items; the length of the text is enough.  A key met
    again replaces the earlier value, as [json.loads] does. *)
Fixpoint parse_value (fuel : nat) (s : list ascii) : option (value * list ascii) :=
  match fuel with
  | O => None
  | S fuel' =>
      match skip_ws s with
      | c :: r =>
          if (N_of_ascii c =? 34)%N then
            match parse_chars r with
            | Some (str, rest) => Some (VStr str, rest)
            | None => None
            end
          else if (N_of_ascii c =? 123)%N then
            match skip_ws r with
            | c' :: r' =>
                if (N_of_ascii c' =? 125)%N then Some (VDict [], r')
                else parse_members fuel' r []
            | [] => None
            end
          else if (N_of_ascii c =? 91)%N then
            match skip_ws r with
            | c' :: r' =>
                if (N_of_ascii c' =? 93)%N then Some (VList [], r')
                else parse_items fuel' r []
            | [] => None
            end
          else None
      | [] => None
      end
  end
with parse_members (fuel : nat) (s : list ascii) (acc : dict)
  : option (value * list ascii) :=
  match fuel with
  | O => None
  | S fuel' =>
      match skip_ws s with
      | c :: r =>
          if (N_of_ascii c =? 34)%N then
            match parse_chars r with
            | Some (k, r1) =>
                match skip_ws r1 with
                | c1 :: r2 =>
                    if (N_of_ascii c1 =? 58)%N then
                      match parse_value fuel' r2 with
                      | Some (v, r3) =>
                          let acc' := dict_set k v acc in
                          match skip_ws r3 with
                          | c3 :: r4 =>
                              if (N_of_ascii c3 =? 44)%N
                              then parse_members fuel' r4 acc'
                              else if (N_of_ascii c3 =? 125)%N
                              then Some (VDict acc', r4)
                              else None
                          | [] => None
                          end
                      | None => None
                      end
                    else None
                | [] => None
                end
            | None => None
            end
          else None
      | [] => None
      end
  end
with parse_items (fuel : nat) (s : list ascii) (acc : list value)
  : option (value * list ascii) :=
  match fuel with
  | O => None
  | S fuel' =>
      match parse_value fuel' s with
      | Some (v, r1) =>
          let acc' := acc ++ [v] in
          match skip_ws r1 with
          | c :: r2 =>
              if (N_of_ascii c =? 44)%N then parse_items fuel' r2 acc'
              else if (N_of_ascii c =? 93)%N then Some (VList acc', r2)
              else None
          | [] => None
          end
      | None => None
      end
  end.

(** The decoder reads the text of [v] back, whatever follows it, with
    fuel from the length of the text on. *)
Definition decodes (v : value) : Prop :=
  wf v -> encoded v = true ->
  forall fuel rest, (length (dumps v) <= fuel)%nat ->
    parse_value fuel (dumps v ++ rest) = Some (v, rest).

(** [json.loads(text)]: one value, then nothing but white space. *)
Definition json_loads (text : string) : option value :=
  let s := list_ascii_of_string text in
  match parse_value (S (length s)) s with
  | Some (v, rest) =>
      match skip_ws rest with [] => Some v | _ :: _ => None end
  | None => None
  end.

End Json.
Import Json.

(* ===================================================================== *)
(** ** sqlite3: tables, statements, parameters *)
(* ===================================================================== *)

Module Sql.

Inductive sqlval :=
| SNull
| SInt (z : Z)
| SText (s : string).

#[global] Instance sqlval_eq_dec : EqDecision sqlval.
Proof. solve_decision. Defined.

(** A row: the columns a statement has stored, by name.  A column no
    statement has written reads as NULL. *)
Definition row := list (string * sqlval).

Fixpoint col (c : string) (r : row) : sqlval :=
  match r with
  | [] => SNull
  | (c', v) :: r' => if String.eqb c' c then v else col c r'
  end.

Fixpoint set_col (c : string) (v : sqlval) (r : row) : row :=
  match r with
  | [] => [(c, v)]
  | (c', v') :: r' =>
      if String.eqb c' c then (c, v) :: r' else (c', v') :: set_col c v r'
  end.

(** The database file: table name to rows, in insertion order. *)
Abbreviation database := (gmap string (list row)).

Definition table (t : string) (db : database) : list row := db !!! t.

(** The four statement shapes build.py sends. *)
Inductive statement :=
| InsertInto (t : string) (columns : list string)
| InsertOrReplaceInto (t : string) (columns : list string)
| Update (t : string) (assigned : list string) (where_col : string)
| DeleteFrom (t : string).

(** [column = ?] in a WHERE clause: never true of NULL. *)
Definition sql_eq (a b : sqlval) : bool :=
  match a with
  | SNull => false
  | _ => bool_decide (a = b)
  end.

(** Modelled from the spec: schema.sql is not part of the sources; the
    specification gives the tables written with INSERT OR REPLACE the
    primary key [id] ("every record id is unique within its table,
    enforced via upsert-by-id"), the conflict target below, and no
    constraint on the tables written with plain INSERT.  Columns keep the
    text they are given (no type affinity). *)
Definition primary_key : string := "id".

Definition conflicts (new old : row) : bool :=
  sql_eq (col primary_key new) (col primary_key old).

(** REPLACE conflict resolution: the rows the new one conflicts with are
    deleted, then the new row is inserted. *)
Definition insert_or_replace (r : row) (rows : list row) : list row :=
  List.filter (fun old => negb (conflicts r old)) rows ++ [r].

Definition assign (cols : list string) (vals : list sqlval) (r : row) : row :=
  fold_left (fun r cv => set_col (fst cv) (snd cv) r) (combine cols vals) r.

Definition update_rows (assigned : list string) (where_col : string)
    (vals : list sqlval) (rows : list row) : list row :=
  let n := length assigned in
  let key := List.nth n vals SNull in
  map (fun r => if sql_eq key (col where_col r)
                then assign assigned (firstn n vals) r else r) rows.

Definition run_statement (s : statement) (vals : list sqlval) (db : database)
  : database :=
  match s with
  | InsertInto t cols => <[t := table t db ++ [combine cols vals]]> db
  | InsertOrReplaceInto t cols =>
      <[t := insert_or_replace (combine cols vals) (table t db)]> db
  | Update t assigned where_col =>
      <[t := update_rows assigned where_col vals (table t db)]> db
  | DeleteFrom t => <[t := []]> db
  end.

(** A Python object passed as a statement parameter. *)
Inductive param :=
| PVal (o : option value)
| PInt (z : Z).

(** sqlite3 binds [None], [int] and [str]; a dict or a list raises
    ("type is not supported"). *)
Definition adapt (p : param) : option sqlval :=
  match p with
  | PVal None => Some SNull
  | PVal (Some (VStr s)) => Some (SText s)
  | PVal (Some (VDict _)) => None
  | PVal (Some (VList _)) => None
  | PInt z => Some (SInt z)
  end.

Fixpoint adapt_all (ps : list param) : option (list sqlval) :=
  match ps with
  | [] => Some []
  | p :: ps' =>
      match adapt p, adapt_all ps' with
      | Some v, Some vs => Some (v :: vs)
      | _, _ => None
      end
  end.

End Sql.
Import Sql.

(* ===================================================================== *)
(** ** The connection monad: state, exceptions, commit *)
(* ===================================================================== *)

Inductive exn :=
| XMLSyntaxError
| InterfaceError
| FileNotFoundError
| PermissionError.

Inductive result (A : Type) :=
| Ok (a : A)
| Raise (e : exn).
Arguments Ok {A} a.
Arguments Raise {A} e.

(** An open connection: the rows as the statements of the current
    transaction have left them, the rows of the last commit, and the
    [nonlocal] counters of run_import. *)
Record conn := Conn {
  working : database;
  committed : database;
  counters : gmap string nat
}.

Definition M (A : Type) : Type := conn -> result A * conn.

Definition ret {A} (a : A) : M A := fun c => (Ok a, c).

Definition bind {A B} (m : M A) (f : A -> M B) : M B :=
  fun c => match m c with
           | (Ok a, c') => f a c'
           | (Raise e, c') => (Raise e, c')
           end.

Definition raise {A} (e : exn) : M A := fun c => (Raise e, c).

Declare Scope conn_scope.
Delimit Scope conn_scope with conn.
Notation "x <- m ;; k" := (bind m (fun x => k))
  (at level 100, m at next level, right associativity) : conn_scope.
Notation "m ;; k" := (bind m (fun _ => k))
  (at level 100, right associativity) : conn_scope.
Local Open Scope conn_scope.

(** [cursor.execute(sql, params)] *)
Definition execute (s : statement) (params : list param) : M unit :=
  fun c =>
    match adapt_all params with
    | Some vals =>
        (Ok tt, Conn (run_statement s vals (working c)) (committed c) (counters c))
    | None => (Raise InterfaceError, c)
    end.

(** [conn.commit()] *)
Definition commit : M unit :=
  fun c => (Ok tt, Conn (working c) (working c) (counters c)).

(** [name = 0] for a counter. *)
Definition reset (name : string) : M unit :=
  fun c => (Ok tt, Conn (working c) (committed c) (<[name := 0]> (counters c))).

(** [name += 1] *)
Definition incr (name : string) : M unit :=
  fun c => (Ok tt, Conn (working c) (committed c)
                     (<[name := S (counters c !!! name)]> (counters c))).

(** [for x in l: body(x)] *)
Fixpoint for_each {A} (l : list A) (body : A -> M unit) : M unit :=
  match l with
  | [] => ret tt
  | x :: l' => body x ;; for_each l' body
  end.

(* ===================================================================== *)
(** ** The importers of run_import *)
(* ===================================================================== *)

(** [d.get(k, [])] *)
Definition get_or_list (k : string) (d : dict) : value :=
  default (VList []) (dict_get k d).

Definition import_region (data : dict) : M unit :=
  execute (InsertOrReplaceInto "regions" ["id"; "name"; "type"])
    [PVal (dict_get "id" data); PVal (dict_get "name" data);
     PVal (dict_get "type" data)].

Definition import_underground (data : dict) : M unit :=
  execute (InsertOrReplaceInto "underground_regions" ["id"; "type"; "depth"])
    [PVal (dict_get "id" data); PVal (dict_get "type" data);
     PVal (dict_get "depth" data)].

Definition import_site (data : dict) : M unit :=
  execute
    (InsertOrReplaceInto "sites" ["id"; "name"; "type"; "coords"; "rectangle"])
    [PVal (dict_get "id" data); PVal (dict_get "name" data);
     PVal (dict_get "type" data); PVal (dict_get "coords" data);
     PVal (dict_get "rectangle" data)].

Definition import_artifact (data : dict) : M unit :=
  execute
    (InsertOrReplaceInto "artifacts"
       ["id"; "name"; "item_type"; "item_subtype"; "mat"])
    [PVal (dict_get "id" data);
     PVal (py_or (dict_get "name" data) (dict_get "name_string" data));
     PVal (dict_get "item_type" data); PVal (dict_get "item_subtype" data);
     PVal (dict_get "mat" data)].

Definition import_landmass (data : dict) : M unit :=
  execute (InsertInto "landmasses" ["id"; "name"; "coord_1"; "coord_2"])
    [PVal (dict_get "id" data); PVal (dict_get "name" data);
     PVal (dict_get "coord_1" data); PVal (dict_get "coord_2" data)].

Definition import_peak (data : dict) : M unit :=
  execute
    (InsertInto "mountain_peaks" ["id"; "name"; "coords"; "height"; "is_volcano"])
    [PVal (dict_get "id" data); PVal (dict_get "name" data);
     PVal (dict_get "coords" data); PVal (dict_get "height" data);
     PInt (if dict_mem "is_volcano" data then 1 else 0)].

(** The loop over [struct_list] in [import_site_plus]. *)
Definition structure_rows (site_id : option value) (struct_list : value) : M unit :=
  let struct_list :=
    if is_dict struct_list then VList [struct_list] else struct_list in
  for_each (iter struct_list) (fun struct =>
    match struct with
    | VDict struct =>
        execute
          (InsertInto "structures" ["local_id"; "site_id"; "name"; "name2"; "type"])
          [PVal (dict_get "id" struct); PVal site_id;
           PVal (dict_get "name" struct); PVal (dict_get "name2" struct);
           PVal (dict_get "type" struct)] ;;
        incr "structure_count"
    | _ => ret tt
    end).

Definition import_site_plus (data : dict) : M unit :=
  let site_id := dict_get "id" data in
  if truthy site_id then
    execute (Update "sites" ["civ_id"; "cur_owner_id"] "id")
      [PVal (dict_get "civ_id" data); PVal (dict_get "cur_owner_id" data);
       PVal site_id] ;;
    match default (VDict []) (dict_get "structures" data) with
    | VDict structures =>
        structure_rows site_id (get_or_list "structure" structures)
    | _ => ret tt
    end
  else ret tt.

Definition entity_position_rows (entity_id : option value) (positions : value)
  : M unit :=
  let positions := if is_dict positions then VList [positions] else positions in
  for_each (iter positions) (fun pos =>
    match pos with
    | VDict pos =>
        execute (InsertInto "entity_positions" ["entity_id"; "position_id"; "name"])
          [PVal entity_id; PVal (dict_get "id" pos); PVal (dict_get "name" pos)] ;;
        incr "pos_count"
    | _ => ret tt
    end).

Definition entity_assignment_rows (entity_id : option value) (assignments : value)
  : M unit :=
  let assignments :=
    if is_dict assignments then VList [assignments] else assignments in
  for_each (iter assignments) (fun assign =>
    match assign with
    | VDict assign =>
        execute
          (InsertInto "entity_position_assignments"
             ["entity_id"; "position_id"; "histfig_id"])
          [PVal entity_id; PVal (dict_get "position_id" assign);
           PVal (dict_get "histfig" assign)] ;;
        incr "assign_count"
    | _ => ret tt
    end).

Definition import_entity (data : dict) : M unit :=
  let entity_id := dict_get "id" data in
  execute (InsertOrReplaceInto "entities" ["id"; "name"; "race"; "type"])
    [PVal entity_id; PVal (dict_get "name" data); PVal (dict_get "race" data);
     PVal (dict_get "type" data)] ;;
  entity_position_rows entity_id (get_or_list "entity_position" data) ;;
  entity_assignment_rows entity_id (get_or_list "entity_position_assignment" data).

Definition entity_link_rows (hfid : option value) (links : value) : M unit :=
  let links := if is_dict links then VList [links] else links in
  for_each (iter links) (fun link =>
    match link with
    | VDict link =>
        execute
          (InsertInto "hf_entity_links"
             ["hfid"; "entity_id"; "link_type"; "link_strength"])
          [PVal hfid; PVal (dict_get "entity_id" link);
           PVal (dict_get "link_type" link);
           PVal (dict_get "link_strength" link)] ;;
        incr "entity_link_count"
    | _ => ret tt
    end).

Definition site_link_rows (hfid : option value) (slinks : value) : M unit :=
  let slinks := if is_dict slinks then VList [slinks] else slinks in
  for_each (iter slinks) (fun slink =>
    match slink with
    | VDict slink =>
        execute (InsertInto "hf_site_links" ["hfid"; "site_id"; "link_type"])
          [PVal hfid; PVal (dict_get "site_id" slink);
           PVal (dict_get "link_type" slink)] ;;
        incr "site_link_count"
    | _ => ret tt
    end).

Definition import_hf (data : dict) : M unit :=
  let hfid := dict_get "id" data in
  execute
    (InsertOrReplaceInto "historical_figures"
       ["id"; "name"; "race"; "caste"; "sex"; "birth_year"; "death_year"])
    [PVal hfid; PVal (dict_get "name" data); PVal (dict_get "race" data);
     PVal (dict_get "caste" data); PVal (dict_get "sex" data);
     PVal (dict_get "birth_year" data); PVal (dict_get "death_year" data)] ;;
  entity_link_rows hfid (get_or_list "entity_link" data) ;;
  site_link_rows hfid (get_or_list "site_link" data).

Definition import_rel (data : dict) : M unit :=
  execute
    (InsertInto "hf_relationships"
       ["source_hf"; "target_hf"; "relationship"; "year"])
    [PVal (dict_get "source_hf" data); PVal (dict_get "target_hf" data);
     PVal (dict_get "relationship" data); PVal (dict_get "year" data)].

Definition known_fields : list string :=
  ["id"; "year"; "type"; "site_id"; "site"; "hfid"; "civ_id"; "civ";
   "state"; "reason"; "slayer_hfid"; "slayer_hf"; "death_cause";
   "artifact_id"; "entity_id"; "structure_id"].

(** [{k: v for k, v in data.items() if k not in known_fields}] *)
Definition extra_fields (data : dict) : dict :=
  List.filter (fun kv => negb (existsb (String.eqb (fst kv)) known_fields)) data.

(** [json.dumps(extra) if extra else None] *)
Definition extra_data (extra : dict) : option value :=
  match extra with
  | [] => None
  | _ :: _ => Some (VStr (json_dumps (VDict extra)))
  end.

Definition import_event (data : dict) : M unit :=
  let extra := extra_fields data in
  execute
    (InsertInto "historical_events"
       ["id"; "year"; "type"; "site_id"; "hfid"; "civ_id"; "state"; "reason";
        "slayer_hfid"; "death_cause"; "artifact_id"; "entity_id";
        "structure_id"; "extra_data"])
    [PVal (dict_get "id" data); PVal (dict_get "year" data);
     PVal (dict_get "type" data);
     PVal (py_or (dict_get "site_id" data) (dict_get "site" data));
     PVal (dict_get "hfid" data);
     PVal (py_or (dict_get "civ_id" data) (dict_get "civ" data));
     PVal (dict_get "state" data); PVal (dict_get "reason" data);
     PVal (py_or (dict_get "slayer_hfid" data) (dict_get "slayer_hf" data));
     PVal (dict_get "death_cause" data); PVal (dict_get "artifact_id" data);
     PVal (dict_get "entity_id" data); PVal (dict_get "structure_id" data);
     PVal (extra_data extra)].

Definition style_rows (content_id : option value) (styles : value) : M unit :=
  let styles := if is_str styles then VList [styles] else styles in
  for_each (iter styles) (fun style =>
    execute (InsertInto "written_content_styles" ["written_content_id"; "style"])
      [PVal content_id; PVal (Some style)] ;;
    incr "style_count").

Definition reference_rows (content_id : option value) (refs : value) : M unit :=
  let refs := if is_dict refs then VList [refs] else refs in
  for_each (iter refs) (fun ref =>
    match ref with
    | VDict ref =>
        execute
          (InsertInto "written_content_references"
             ["written_content_id"; "ref_type"; "ref_id"])
          [PVal content_id; PVal (dict_get "type" ref);
           PVal (dict_get "id" ref)] ;;
        incr "ref_count"
    | _ => ret tt
    end).

Definition import_content (data : dict) : M unit :=
  let content_id := dict_get "id" data in
  execute
    (InsertInto "written_content"
       ["id"; "title"; "type"; "author_hfid"; "page_start"; "page_end"])
    [PVal content_id; PVal (dict_get "title" data); PVal (dict_get "type" data);
     PVal (dict_get "author" data); PVal (dict_get "page_start" data);
     PVal (dict_get "page_end" data)] ;;
  style_rows content_id (get_or_list "style" data) ;;
  reference_rows content_id (get_or_list "reference" data).

(** The repeatable fields and the loop that consumes each. *)
Inductive repeatable :=
| EntityPosition
| EntityPositionAssignment
| EntityLink
| SiteLink
| Structure
| Reference
| Style.

Definition field_rows (f : repeatable) : option value -> value -> M unit :=
  match f with
  | EntityPosition => entity_position_rows
  | EntityPositionAssignment => entity_assignment_rows
  | EntityLink => entity_link_rows
  | SiteLink => site_link_rows
  | Structure => structure_rows
  | Reference => reference_rows
  | Style => style_rows
  end.

(** The wrapping each loop applies before iterating: a dict (a str for
    [style]) becomes a one-item list. *)
Definition normalize (f : repeatable) (v : value) : value :=
  match f with
  | Style => if is_str v then VList [v] else v
  | _ => if is_dict v then VList [v] else v
  end.

(** What a record holds under a repeatable tag that occurred as the child
    elements [cs], read with [.get(tag, [])]. *)
Definition field_value (cs : list element) : value :=
  default (VList []) (promote (map child_value cs)).

(** A [written_content] record whose only style has a child element, and
    one with that style followed by a plain one. *)
Definition nested_style : element :=
  Element "style" None [Element "a" None []].
Definition plain_style : element :=
  Element "style" (Some "b") [].

(** The items the loop over [struct_list] in [import_site_plus] visits for
    a record, read off the code: [structures] must be a dict, and its
    [structure] entry is taken as a list, a single value being one item. *)
Definition struct_list_items (data : dict) : list value :=
  match dict_get "structures" data with
  | Some (VDict structures) =>
      match dict_get "structure" structures with
      | None => []
      | Some (VList l) => l
      | Some v => [v]
      end
  | _ => []
  end.

(** The Structure children a pass-2 site element lists: the [structure]
    elements under its [structures] wrapper elements, in document order. *)
Definition listed_structure_elements (e : element) : list element :=
  concat (map (occurrences "structure") (occurrences "structures" e)).

Definition has_children (e : element) : bool :=
  match children e with [] => false | _ :: _ => true end.

(** The row of the [structures] table for one Structure child of the site
    [i]; only a child that flattened to a dict has one. *)
Definition structure_row (i : string) (v : value) : option row :=
  match v with
  | VDict struct =>
      option_map
        (combine ["local_id"; "site_id"; "name"; "name2"; "type"])
        (adapt_all
           [PVal (dict_get "id" struct); PVal (Some (VStr i));
            PVal (dict_get "name" struct); PVal (dict_get "name2" struct);
            PVal (dict_get "type" struct)])
  | _ => None
  end.

(** A pass-2 site that lists one Structure child, a leaf. *)
Definition site_with_leaf_structure : element :=
  Element "site" None
    [Element "id" (Some "42") [];
     Element "civ_id" (Some "7") [];
     Element "structures" None [Element "structure" (Some "tower") []]].

(** A pass-2 site whose two Structure children, each with fields of its
    own, come under two [structures] wrappers. *)
Definition site_with_two_wrappers : element :=
  Element "site" None
    [Element "id" (Some "42") [];
     Element "civ_id" (Some "7") [];
     Element "structures" None
       [Element "structure" None
          [Element "id" (Some "0") []; Element "type" (Some "tower") []]];
     Element "structures" None
       [Element "structure" None
          [Element "id" (Some "1") []; Element "type" (Some "keep") []]]].

(** The same site as pass 1 stored it. *)
Definition pass1_site_row : row :=
  [("id", SText "42"); ("name", SText "ironhold"); ("type", SText "fortress");
   ("coords", SText "3,4"); ("rectangle", SText "1,1:2,2")].

(** The six tables written with INSERT OR REPLACE, and their importers. *)
Inductive dimension :=
| Regions
| UndergroundRegions
| Sites
| Artifacts
| Entities
| HistoricalFigures.

Definition dimension_table (k : dimension) : string :=
  match k with
  | Regions => "regions"
  | UndergroundRegions => "underground_regions"
  | Sites => "sites"
  | Artifacts => "artifacts"
  | Entities => "entities"
  | HistoricalFigures => "historical_figures"
  end.

Definition dimension_importer (k : dimension) : dict -> M unit :=
  match k with
  | Regions => import_region
  | UndergroundRegions => import_underground
  | Sites => import_site
  | Artifacts => import_artifact
  | Entities => import_entity
  | HistoricalFigures => import_hf
  end.

(** The columns and the parameters of the INSERT OR REPLACE of each
    dimension importer, and the row it stores for a record. *)
Definition dimension_columns (k : dimension) : list string :=
  match k with
  | Regions => ["id"; "name"; "type"]
  | UndergroundRegions => ["id"; "type"; "depth"]
  | Sites => ["id"; "name"; "type"; "coords"; "rectangle"]
  | Artifacts => ["id"; "name"; "item_type"; "item_subtype"; "mat"]
  | Entities => ["id"; "name"; "race"; "type"]
  | HistoricalFigures =>
      ["id"; "name"; "race"; "caste"; "sex"; "birth_year"; "death_year"]
  end.

Definition dimension_params (k : dimension) (data : dict) : list param :=
  match k with
  | Artifacts =>
      [PVal (dict_get "id" data);
       PVal (py_or (dict_get "name" data) (dict_get "name_string" data));
       PVal (dict_get "item_type" data); PVal (dict_get "item_subtype" data);
       PVal (dict_get "mat" data)]
  | _ => map (fun column => PVal (dict_get column data)) (dimension_columns k)
  end.

Definition dimension_row (k : dimension) (data : dict) : option row :=
  option_map (combine (dimension_columns k)) (adapt_all (dimension_params k data)).

(** The rows of a table that carry the id [i]. *)
Definition with_id (i : string) (rows : list row) : list row :=
  List.filter (fun r => bool_decide (col "id" r = SText i)) rows.

(** A pass of INSERT OR REPLACE over the rows [rs], in order. *)
Definition upsert_all (rs rows : list row) : list row :=
  fold_left (fun rows r => insert_or_replace r rows) rs rows.

(** [old] conflicts with none of the rows [rs]. *)
Definition untouched (rs : list row) (old : row) : bool :=
  forallb (fun r => negb (conflicts r old)) rs.

(** A pass-2 site with one Structure child that has fields of its own. *)
Definition site_with_structure : element :=
  Element "site" None
    [Element "id" (Some "42") [];
     Element "civ_id" (Some "7") [];
     Element "cur_owner_id" (Some "9") [];
     Element "structures" None
       [Element "structure" None
          [Element "id" (Some "0") []; Element "type" (Some "tower") []]]].

(** Site 42 as legends.xml gives it, and a second record with the same id. *)
Definition site_element : element :=
  Element "site" None
    [Element "id" (Some "42") []; Element "name" (Some "ironhold") [];
     Element "type" (Some "fortress") []].
Definition site_renamed : element :=
  Element "site" None
    [Element "id" (Some "42") []; Element "name" (Some "goldhold") [];
     Element "type" (Some "fortress") []].

(** An [entity] element without an id of its own: a leaf that refers to an
    entity from inside another record.  [iterparse] selects by tag alone
    and hands it to [import_entity] like any other. *)
Definition entity_reference : element := Element "entity" (Some "5") [].

(** An element whose tags and texts, at every depth, hold strs: what lxml
    builds from a document. *)
Fixpoint element_text (e : element) : bool :=
  match e with
  | Element t x cs =>
      is_text t && match x with Some s => is_text s | None => true end &&
      (fix all (cs : list element) : bool :=
         match cs with [] => true | c :: cs' => element_text c && all cs' end) cs
  end.

(** The Event record of the specification's example. *)
Definition event_with_custom_field : dict :=
  [("id", VStr "12"); ("year", VStr "250"); ("type", VStr "hf died");
   ("custom_field", VStr "value")].

(** An Event record whose unrecognized field holds a character outside
    Latin-1, the light shade U+2591, followed by a letter. *)
Definition event_with_shade : dict :=
  [("id", VStr "12"); ("year", VStr "250"); ("type", VStr "hf died");
   ("custom_field", VStr (encode [0x2591; 0x61]%N))].

(** A computation whose outcome (return value or exception) does not
    depend on the connection it runs on. *)
Definition stateless {A} (m : M A) : Prop :=
  forall c1 c2 : conn, fst (m c1) = fst (m c2).

(* ===================================================================== *)
(** ** Files, streaming and run_import *)
(* ===================================================================== *)

(** [str.lower()] on a file name, ASCII letters; no other character lowers
    to a letter of "legends_plus". *)
Definition lower_char (c : ascii) : ascii :=
  let n := N_of_ascii c in
  if ((65 <=? n) && (n <=? 90))%N then ascii_of_N (n + 32) else c.

Fixpoint lower (s : string) : string :=
  match s with
  | EmptyString => EmptyString
  | String c s' => String (lower_char c) (lower s')
  end.

(** [needle in hay] *)
Fixpoint contains (needle hay : string) : bool :=
  String.prefix needle hay ||
  match hay with
  | EmptyString => false
  | String _ hay' => contains needle hay'
  end.

Fixpoint ends_with (suffix s : string) : bool :=
  String.eqb s suffix ||
  match s with
  | EmptyString => false
  | String _ s' => ends_with suffix s'
  end.

(** [BASE_DIR.glob("*.xml")] over the names of the directory. *)
Definition glob_xml (names : list string) : list string :=
  List.filter (ends_with ".xml") names.

(** The body of the loop of [find_xml_files], on the two globals. *)
Definition find_step (globals : option string * option string) (f : string)
  : option string * option string :=
  let '(LEGENDS_FILE, LEGENDS_PLUS_FILE) := globals in
  let name := lower f in
  if contains "legends_plus" name then (LEGENDS_FILE, Some f)
  else if contains "legends" name then (Some f, LEGENDS_PLUS_FILE)
  else (LEGENDS_FILE, LEGENDS_PLUS_FILE).

(** [find_xml_files]: the two globals after the loop, both [None] before
    it.  The function returns whether both are set. *)
Definition find_xml_files (names : list string) : option string * option string :=
  fold_left find_step (glob_xml names) (None, None).

(** What run_import works on: the base directory (a file that cannot be
    opened has no content), the directory of temporary files, and the
    committed content of world.db. *)
Record world := World {
  base_dir : list (string * option (list byte));
  temp_dir : gmap string (list byte);
  store : database
}.

Fixpoint open_rb (filepath : string) (dir : list (string * option (list byte)))
  : option (list byte) :=
  match dir with
  | [] => None
  | (name, content) :: dir' =>
      if String.eqb name filepath then content else open_rb filepath dir'
  end.

(** [tempfile.mkstemp]: a path that does not exist yet. *)
Definition mkstemp (temp : gmap string (list byte)) : string :=
  fresh (dom temp).

(** [sanitize_xml_file(filepath)]: the temporary file is created first,
    then the input is opened; the path is returned once the loop is done. *)
Definition sanitize_xml_file (filepath : string) (w : world) : result string * world :=
  let temp_path := mkstemp (temp_dir w) in
  match open_rb filepath (base_dir w) with
  | Some infile =>
      (Ok temp_path,
       World (base_dir w) (<[temp_path := Sanitizer.sanitize_bytes infile]> (temp_dir w))
             (store w))
  | None =>
      (Raise PermissionError,
       World (base_dir w) (<[temp_path := []]> (temp_dir w)) (store w))
  end.

(** [os.unlink(path)] *)
Definition unlink (path : string) (w : world) : result unit * world :=
  match temp_dir w !! path with
  | Some _ => (Ok tt, World (base_dir w) (delete path (temp_dir w)) (store w))
  | None => (Raise FileNotFoundError, w)
  end.

(** Modelled from the spec: schema.sql is not part of the sources; the
    script creates the tables that are missing and keeps the rows of an
    existing database ("created fresh or upserted per run"). *)
Definition init_db (db : database) : conn := Conn db db ∅.

Definition tables : list string :=
  ["world"; "regions"; "underground_regions"; "landmasses"; "mountain_peaks";
   "sites"; "structures"; "site_properties"; "entities"; "entity_positions";
   "entity_position_assignments"; "historical_figures"; "hf_entity_links";
   "hf_site_links"; "hf_relationships"; "artifacts"; "historical_events";
   "written_content"; "written_content_styles"; "written_content_references"].

Definition clear_tables : M unit :=
  for_each tables (fun t => execute (DeleteFrom t) []) ;;
  commit.

(** A base directory with both exports, one with the base export only, one
    whose extended export cannot be opened, and a parser that finds no
    element. *)
Definition both_exports : world :=
  World [("region1-legends.xml", Some (list_byte_of_string "<a>x</a>"));
         ("region1-legends_plus.xml", Some (list_byte_of_string "<b/>"))] ∅ ∅.
Definition base_export_only : world :=
  World [("region1-legends.xml", Some (list_byte_of_string "<a>x</a>"));
         ("notes.txt", Some [])] ∅ ∅.
Definition plus_unreadable : world :=
  World [("region1-legends.xml", Some (list_byte_of_string "<a>x</a>"));
         ("region1-legends_plus.xml", None)] ∅ ∅.
Definition no_elements : list byte -> list string -> list element * bool :=
  fun _ _ => ([], true).

(** Two small exports, as the document trees lxml builds for them, and
    what [iterparse] hands out for each: the elements carrying one of the
    tags, in the order in which they end.  The base export holds one
    region, the extended export the two names of the world.  A file that
    is neither of the two is outside this table and reads as not
    well-formed. *)
Definition small_legends : list byte :=
  list_byte_of_string
    ("<df_world><regions><region><id>0</id><name>the hills</name>" +:+
     "<type>Hills</type></region></regions></df_world>").

Definition small_legends_tree : element :=
  Element "df_world" None
    [Element "regions" None
       [Element "region" None
          [Element "id" (Some "0") []; Element "name" (Some "the hills") [];
           Element "type" (Some "Hills") []]]].

Definition small_legends_plus : list byte :=
  list_byte_of_string
    "<df_world><name>Orid</name><altname>The Realm</altname></df_world>".

Definition small_legends_plus_tree : element :=
  Element "df_world" None
    [Element "name" (Some "Orid") []; Element "altname" (Some "The Realm") []].

Fixpoint end_events (e : element) : list element :=
  match e with
  | Element _ _ cs =>
      (fix each (cs : list element) : list element :=
         match cs with
         | [] => []
         | c :: cs' => end_events c ++ each cs'
         end) cs ++ [e]
  end.

Definition small_iterparse (file : list byte) (tags : list string)
  : list element * bool :=
  let select (tree : element) :=
    List.filter (fun x => existsb (String.eqb (tag x)) tags) (end_events tree) in
  let holds (document : list byte) :=
    String.eqb (string_of_list_byte file) (string_of_list_byte document) in
  if holds small_legends then (select small_legends_tree, true)
  else if holds small_legends_plus then (select small_legends_plus_tree, true)
  else ([], false).

Section Streaming.

(** lxml's [etree.iterparse(file, events=('end',), tag=tags)]: the
    elements it yields, each as it is when handed out, and whether the
    document ended without a syntax error. *)
Variable iterparse : list byte -> list string -> list element * bool.

Fixpoint stream_loop (elems : list element) (callback : dict -> M unit)
    (count : nat) : M nat :=
  match elems with
  | [] => ret count
  | elem :: elems' =>
      let data := xml_to_dict elem in
      callback data ;;
      stream_loop elems' callback (S count)
  end.

Definition stream_elements (file : list byte) (tag : string)
    (callback : dict -> M unit) : M nat :=
  let '(elems, complete) := iterparse file [tag] in
  count <- stream_loop elems callback 0 ;;
  if complete then ret count else raise XMLSyntaxError.

Fixpoint world_info_loop (elems : list element) (complete : bool)
    (name : option string) : M (option string * option string) :=
  match elems with
  | [] => if complete then ret (name, None) else raise XMLSyntaxError
  | elem :: elems' =>
      if String.eqb (tag elem) "name" && bool_decide (name = None)
      then world_info_loop elems' complete (text elem)
      else if String.eqb (tag elem) "altname"
      then ret (name, text elem)
      else world_info_loop elems' complete name
  end.

Definition get_world_info (file : list byte) : M (option string * option string) :=
  let '(elems, complete) := iterparse file ["name"; "altname"] in
  world_info_loop elems complete None.

(** One pass: [stream_elements(...)] then [conn.commit()]. *)
Definition pass (file : list byte) (tag : string) (callback : dict -> M unit)
  : M unit :=
  stream_elements file tag callback ;; commit.

(** The [try] block of run_import after [init_db]. *)
Definition import_passes (legends_clean legends_plus_clean : list byte) : M bool :=
  clear_tables ;;
  info <- get_world_info legends_plus_clean ;;
  execute (InsertInto "world" ["name"; "altname"])
    [PVal (VStr <$> fst info); PVal (VStr <$> snd info)] ;;
  commit ;;
  pass legends_clean "region" import_region ;;
  pass legends_clean "underground_region" import_underground ;;
  pass legends_clean "site" import_site ;;
  pass legends_clean "artifact" import_artifact ;;
  pass legends_plus_clean "landmass" import_landmass ;;
  pass legends_plus_clean "mountain_peak" import_peak ;;
  reset "structure_count" ;;
  pass legends_plus_clean "site" import_site_plus ;;
  reset "pos_count" ;; reset "assign_count" ;;
  pass legends_plus_clean "entity" import_entity ;;
  reset "entity_link_count" ;; reset "site_link_count" ;;
  pass legends_clean "historical_figure" import_hf ;;
  pass legends_plus_clean "historical_event_relationship" import_rel ;;
  pass legends_plus_clean "historical_event" import_event ;;
  reset "style_count" ;; reset "ref_count" ;;
  pass legends_plus_clean "written_content" import_content ;;
  ret true.

(** [run_import()]: what it returns or raises, and the world it leaves.
    An exception in the [try] block leaves the store at its last commit;
    the [finally] block then unlinks the two temporary files. *)
Definition run_import (w : world) : result bool * world :=
  match find_xml_files (map fst (base_dir w)) with
  | (Some LEGENDS_FILE, Some LEGENDS_PLUS_FILE) =>
      match sanitize_xml_file LEGENDS_FILE w with
      | (Raise e, w1) => (Raise e, w1)
      | (Ok legends_clean, w1) =>
          match sanitize_xml_file LEGENDS_PLUS_FILE w1 with
          | (Raise e, w2) => (Raise e, w2)
          | (Ok legends_plus_clean, w2) =>
              let '(r, c) :=
                import_passes (temp_dir w2 !!! legends_clean)
                              (temp_dir w2 !!! legends_plus_clean)
                              (init_db (store w2)) in
              let w3 := World (base_dir w2) (temp_dir w2) (committed c) in
              match unlink legends_clean w3 with
              | (Raise e, w4) => (Raise e, w4)
              | (Ok _, w4) =>
                  match unlink legends_plus_clean w4 with
                  | (Raise e, w5) => (Raise e, w5)
                  | (Ok _, w5) => (r, w5)
                  end
              end
          end
      end
  | _ => (Ok false, w)
  end.

End Streaming.

(* ===================================================================== *)
(** ** The callbacks as a family, and the computations they are made of *)
(* ===================================================================== *)

(** The twelve callbacks run_import hands to [stream_elements]. *)
Inductive importer :=
| ImportRegion
| ImportUnderground
| ImportSite
| ImportArtifact
| ImportLandmass
| ImportPeak
| ImportSitePlus
| ImportEntity
| ImportHf
| ImportRel
| ImportEvent
| ImportContent.

Definition callback (i : importer) : dict -> M unit :=
  match i with
  | ImportRegion => import_region
  | ImportUnderground => import_underground
  | ImportSite => import_site
  | ImportArtifact => import_artifact
  | ImportLandmass => import_landmass
  | ImportPeak => import_peak
  | ImportSitePlus => import_site_plus
  | ImportEntity => import_entity
  | ImportHf => import_hf
  | ImportRel => import_rel
  | ImportEvent => import_event
  | ImportContent => import_content
  end.

(** The tables the statements of each callback name. *)
Definition written (i : importer) : list string :=
  match i with
  | ImportRegion => ["regions"]
  | ImportUnderground => ["underground_regions"]
  | ImportSite => ["sites"]
  | ImportArtifact => ["artifacts"]
  | ImportLandmass => ["landmasses"]
  | ImportPeak => ["mountain_peaks"]
  | ImportSitePlus => ["sites"; "structures"]
  | ImportEntity =>
      ["entities"; "entity_positions"; "entity_position_assignments"]
  | ImportHf => ["historical_figures"; "hf_entity_links"; "hf_site_links"]
  | ImportRel => ["hf_relationships"]
  | ImportEvent => ["historical_events"]
  | ImportContent =>
      ["written_content"; "written_content_styles";
       "written_content_references"]
  end.

Definition statement_table (s : statement) : string :=
  match s with
  | InsertInto t _ => t
  | InsertOrReplaceInto t _ => t
  | Update t _ _ => t
  | DeleteFrom t => t
  end.

(** The computations made of statements on the tables [W], counter
    updates, [raise] and sequencing; [commit] only where [commits] says
    so. *)
Inductive script (W : list string) (commits : bool) : forall A, M A -> Prop :=
| script_ret A (a : A) : script W commits A (ret a)
| script_raise A (e : exn) : script W commits A (raise e)
| script_execute s ps :
    In (statement_table s) W -> script W commits unit (execute s ps)
| script_incr name : script W commits unit (incr name)
| script_reset name : script W commits unit (reset name)
| script_commit : commits = true -> script W commits unit commit
| script_bind A B (m : M A) (f : A -> M B) :
    script W commits A m -> (forall a, script W commits B (f a)) ->
    script W commits B (bind m f).

(** Two connections hold the same rows in the table [T], in the current
    transaction and at the last commit. *)
Definition same_table (T : string) (c1 c2 : conn) : Prop :=
  table T (working c1) = table T (working c2) /\
  table T (committed c1) = table T (committed c2).

(* ===================================================================== *)
(** ** Shapes of flattened records *)
(* ===================================================================== *)

(** The distinct strings of a list, each at its first occurrence. *)
Definition first_occurrences (l : list string) : list string :=
  fold_left
    (fun seen t => if existsb (String.eqb t) seen then seen else seen ++ [t])
    l [].

Definition is_list (v : value) : bool :=
  match v with VList _ => true | _ => false end.

(** The values the flattener builds: text; a dict that is not empty, of
    such values; a list of two items or more, none of them a list. *)
Fixpoint flat (v : value) : Prop :=
  match v with
  | VStr _ => True
  | VDict d =>
      d <> [] /\
      (fix all (d : list (string * value)) : Prop :=
         match d with [] => True | (_, v) :: d' => flat v /\ all d' end) d
  | VList l =>
      (2 <= length l)%nat /\
      (fix all (l : list value) : Prop :=
         match l with
         | [] => True
         | v :: l' => (is_list v = false /\ flat v) /\ all l'
         end) l
  end.

(** The 256 byte values, and the UTF-8 bytes the sanitizer writes for one
    input byte that it keeps. *)
Definition all_bytes : list byte :=
  map (fun n => Sanitizer.byte_of (N.of_nat n)) (seq 0 256).

Definition written_for (b : byte) : list byte :=
  Sanitizer.utf8_char (Sanitizer.cp437_decode b).

Fixpoint is_prefix (l1 l2 : list byte) : bool :=
  match l1, l2 with
  | [], _ => true
  | a :: l1', b :: l2' => Byte.eqb a b && is_prefix l1' l2'
  | _ :: _, [] => false
  end.

(** No two different input bytes are written as sequences of which one
    starts the other. *)
Definition prefix_free : bool :=
  forallb
    (fun b1 =>
       forallb
         (fun b2 => Byte.eqb b1 b2 || negb (is_prefix (written_for b1) (written_for b2)))
         all_bytes)
    all_bytes.

(** The two tests of the loop of [find_xml_files], on a file name. *)
Definition is_plus_name (f : string) : bool :=
  contains "legends_plus" (lower f).

Definition is_base_name (f : string) : bool :=
  negb (is_plus_name f) && contains "legends" (lower f).

(** The last name of [l] that passes the test [p], if any. *)
Definition last_such (p : string -> bool) (l : list string) : option string :=
  List.last (map Some (List.filter p l)) None.

(** For [get_world_info]: the elements handed out before the first
    [altname], and the text of the first [name] among [elems] that has
    one. *)
Definition is_altname (e : element) : bool := String.eqb (tag e) "altname".

Fixpoint before_altname (elems : list element) : list element :=
  match elems with
  | [] => []
  | e :: elems' => if is_altname e then [] else e :: before_altname elems'
  end.

Fixpoint first_name (elems : list element) : option string :=
  match elems with
  | [] => None
  | e :: elems' =>
      if String.eqb (tag e) "name"
      then match text e with Some s => Some s | None => first_name elems' end
      else first_name elems'
  end.

(** A tag that occurs at most once among the children of [e], and then as
    a leaf: what the flattener turns into [None] or a string. *)
Definition scalar (t : string) (e : element) : bool :=
  match occurrences t e with
  | [] => true
  | [c] => match children c with [] => true | _ :: _ => false end
  | _ :: _ :: _ => false
  end.

(** The callbacks that send one statement, and the fields each binds with
    a plain [data.get]. *)
Definition single_statement (i : importer) : bool :=
  match i with
  | ImportRegion | ImportUnderground | ImportSite
  | ImportLandmass | ImportPeak | ImportRel => true
  | _ => false
  end.

Definition bound_tags (i : importer) : list string :=
  match i with
  | ImportRegion => ["id"; "name"; "type"]
  | ImportUnderground => ["id"; "type"; "depth"]
  | ImportSite => ["id"; "name"; "type"; "coords"; "rectangle"]
  | ImportLandmass => ["id"; "name"; "coord_1"; "coord_2"]
  | ImportPeak => ["id"; "name"; "coords"; "height"]
  | ImportRel => ["source_hf"; "target_hf"; "relationship"; "year"]
  | _ => []
  end.

(** A region with two names, and a peak with an empty volcano marker. *)
Definition region_with_two_names : element :=
  Element "region" None
    [Element "id" (Some "1") []; Element "name" (Some "a") [];
     Element "name" (Some "b") []].

Definition peak_with_marker : element :=
  Element "mountain_peak" None
    [Element "id" (Some "3") []; Element "is_volcano" None []].

(** A tag that is absent from [e], or occurs once as a leaf without text:
    the fields for which [data.get(tag)] is false. *)
Definition blank (t : string) (e : element) : bool :=
  match occurrences t e with
  | [] => true
  | [c] =>
      match children c with
      | [] => String.eqb (text_or_empty c) ""
      | _ :: _ => false
      end
  | _ :: _ :: _ => false
  end.

(* ===================================================================== *)
(** * Properties *)
(* ===================================================================== *)

(** ** Dicts *)

Lemma dict_get_set_eq k v d : dict_get k (dict_set k v d) = Some v.
Proof.
  induction d as [|[k' v'] d IH]; simpl.
  - now rewrite String.eqb_refl.
  - destruct (String.eqb k' k) eqn:E; simpl.
    + now rewrite String.eqb_refl.
    + now rewrite E.
Qed.

Lemma dict_get_set_ne k k' v d :
  k <> k' -> dict_get k' (dict_set k v d) = dict_get k' d.
Proof.
  intros Hne. induction d as [|[k0 v0] d IH]; simpl.
  - apply String.eqb_neq in Hne. now rewrite Hne.
  - destruct (String.eqb k0 k) eqn:E; simpl.
    + apply String.eqb_eq in E. subst k0.
      apply String.eqb_neq in Hne. now rewrite Hne.
    + destruct (String.eqb k0 k'); [reflexivity | apply IH].
Qed.

(** ** The flattener *)

Lemma xml_to_dict_fold e :
  xml_to_dict e =
  fold_left (fun result child => add_child result (tag child) (child_value child))
            (children e) [].
Proof. destruct e; reflexivity. Qed.

Lemma add_child_get_ne result tg v t :
  tg <> t -> dict_get t (add_child result tg v) = dict_get t result.
Proof.
  intros Hne. unfold add_child.
  destruct (dict_get tg result); now apply dict_get_set_ne.
Qed.

Lemma flatten_children_get t cs :
  dict_get t
    (fold_left (fun result child => add_child result (tag child) (child_value child))
               cs []) =
  promote (map child_value (List.filter (fun c => String.eqb (tag c) t) cs)).
Proof.
  induction cs as [|c cs IH] using rev_ind; [reflexivity|].
  rewrite fold_left_app, List.filter_app, map_app. simpl.
  destruct (String.eqb (tag c) t) eqn:E; simpl.
  - apply String.eqb_eq in E. subst t.
    unfold add_child at 1. rewrite IH.
    destruct (List.filter _ cs) as [|c1 [|c2 occ]]; simpl.
    + apply dict_get_set_eq.
    + rewrite dict_get_set_eq.
      destruct (child_value c1) eqn:Ec; try reflexivity.
      unfold child_value in Ec. destruct (children c1); discriminate.
    + now rewrite dict_get_set_eq.
  - rewrite app_nil_r. rewrite add_child_get_ne; [apply IH|].
    now apply String.eqb_neq.
Qed.

Lemma flattened_field t e :
  dict_get t (xml_to_dict e) = promote (map child_value (occurrences t e)).
Proof. rewrite xml_to_dict_fold. apply flatten_children_get. Qed.

(** C1.  For every element and every tag, the flattened record maps the tag
    to nothing when no immediate child carries it, to the value of the
    child (its nested flattened record when it has children, its text or
    the empty string when it is a leaf) when exactly one child carries it,
    and to the list of the per-child values in document order when two or
    more do. *)
Theorem xml_to_dict_children (e : element) (t : string) :
  dict_get t (xml_to_dict e) =
  match occurrences t e with
  | [] => None
  | [c] =>
      Some (match children c with
            | [] => VStr (match text c with Some s => s | None => "" end)
            | _ :: _ => VDict (xml_to_dict c)
            end)
  | c1 :: c2 :: cs => Some (VList (map child_value (c1 :: c2 :: cs)))
  end.
Proof.
  rewrite xml_to_dict_fold, flatten_children_get. unfold occurrences.
  destruct (List.filter _ (children e)) as [|c1 [|c2 occ]]; reflexivity.
Qed.

(** The two examples of the specification. *)
Example flatten_single :
  xml_to_dict (Element "rec" None [Element "x" (Some "1") []]) = [("x", VStr "1")].
Proof. reflexivity. Qed.

Example flatten_repeated :
  xml_to_dict (Element "rec" None
                 [Element "x" (Some "1") []; Element "x" (Some "2") []]) =
  [("x", VList [VStr "1"; VStr "2"])].
Proof. reflexivity. Qed.

(** ** The sanitizer *)

Module SanitizerFacts.
Import Sanitizer.
Local Open Scope N_scope.

Lemma read_app n stream :
stream = fst (read n stream) ++ snd (read n stream).
Proof.
revert n. induction stream as [|b s IH]; intros n; simpl; [reflexivity|].
destruct (n =? 0); [reflexivity|].
specialize (IH (N.pred n)). destruct (read (N.pred n) s) as [c r]. simpl in *.
now f_equal.
Qed.

Lemma read_nil n stream :
0 < n -> fst (read n stream) = [] -> stream = [].
Proof.
intros Hn. destruct stream as [|b s]; simpl; [reflexivity|].
destruct (N.eqb_spec n 0); [lia|].
destruct (read (N.pred n) s). discriminate.
Qed.

Lemma utf8_encode_app a b : utf8_encode (a ++ b) = utf8_encode a ++ utf8_encode b.
Proof. unfold utf8_encode. now rewrite map_app, concat_app. Qed.

Lemma strip_app a b : strip (a ++ b) = strip a ++ strip b.
Proof. apply List.filter_app. Qed.

Lemma sanitize_loop_rest size fc infile :
0 < size -> fc = false ->
sanitize_loop size fc infile = utf8_encode (strip (map cp437_decode infile)).
Proof.
intros Hsize. funelim (sanitize_loop size fc infile); intros ->.
- assert (infile = []) as ->; [|reflexivity].
  apply (read_nil size); [assumption | now rewrite e].
- rewrite H by trivial.
  rewrite (read_app size infile) at 1. rewrite E. simpl fst. simpl snd.
  now rewrite map_app, strip_app, utf8_encode_app.
Qed.

(** The loop, closed: the first read is rewritten when the flag is set, the
  rest of the stream never is. *)
Lemma sanitize_loop_first size fc infile :
0 < size ->
sanitize_loop size fc infile =
utf8_encode
  (let text := strip (map cp437_decode (fst (read size infile))) in
   if fc then sub text else text) ++
utf8_encode (strip (map cp437_decode (snd (read size infile)))).
Proof.
intros Hsize. funelim (sanitize_loop size fc infile).
- assert (infile = []) as ->.
  { apply (read_nil size); [assumption | now rewrite e]. }
  simpl. now destruct first_chunk.
- rewrite E. simpl fst. simpl snd. cbv zeta.
  now rewrite sanitize_loop_rest.
Qed.

Lemma sanitize_bytes_unfold infile :
sanitize_bytes infile =
utf8_encode (sub (strip (map cp437_decode (fst (read (1024 * 1024) infile))))) ++
utf8_encode (strip (map cp437_decode (snd (read (1024 * 1024) infile)))).
Proof. unfold sanitize_bytes. now rewrite sanitize_loop_first. Qed.


Lemma sub_from_cons k c rest :
sub_from k (c :: rest) =
match k with
| S k' => sub_from k' rest
| O =>
    if matches encoding_pattern (c :: rest)
    then replacement ++ sub_from (Nat.pred (length encoding_pattern)) rest
    else c :: sub_from O rest
end.
Proof. reflexivity. Qed.

Lemma search_cons c rest :
search (c :: rest) =
if matches encoding_pattern (c :: rest) then Some O
else option_map S (search rest).
Proof. reflexivity. Qed.

Lemma sub_from_skipn k text : sub_from k text = sub (skipn k text).
Proof.
revert k. induction text as [|c rest IH]; intros [|k]; try reflexivity.
rewrite sub_from_cons. apply IH.
Qed.

Lemma sub_at_search text n :
search text = Some n ->
sub text =
firstn n text ++ replacement ++ sub (skipn (n + length encoding_pattern) text).
Proof.
revert n. induction text as [|c rest IH]; intros n; [discriminate|].
unfold sub. rewrite search_cons, sub_from_cons.
destruct (matches encoding_pattern (c :: rest)) eqn:Em.
- intros [= <-]. now rewrite sub_from_skipn.
- destruct (search rest) as [n'|]; [|discriminate].
  intros [= <-]. cbn [firstn skipn Nat.add app]. f_equal. now apply IH.
Qed.

Lemma clean_decoded b : invalid_chars (cp437_decode b) = false -> clean (cp437_decode b).
Proof.
intros H. split; [exact H|]. revert H.
destruct b; vm_compute; intros H; try discriminate H;
  repeat (constructor; try reflexivity).
Qed.

Lemma clean_replacement : Forall clean replacement.
Proof. repeat (constructor; [split; [reflexivity | repeat constructor]|]). constructor. Qed.

Lemma clean_strip chunk : Forall clean (strip (map cp437_decode chunk)).
Proof.
induction chunk as [|b chunk IH]; [constructor|].
simpl. unfold strip in *. simpl.
destruct (invalid_chars (cp437_decode b)) eqn:E; simpl; [exact IH|].
constructor; [now apply clean_decoded | exact IH].
Qed.

Lemma clean_sub_from k text : Forall clean text -> Forall clean (sub_from k text).
Proof.
intros H. revert k. induction H as [|c rest Hc Hrest IH]; intros k; [constructor|].
rewrite sub_from_cons. destruct k; [|apply IH].
destruct (matches encoding_pattern (c :: rest)).
- apply Forall_app. split; [apply clean_replacement | apply IH].
- constructor; [exact Hc | apply IH].
Qed.

Lemma clean_utf8 text :
Forall clean text ->
Forall (fun b => invalid_chars (Byte.to_N b) = false) (utf8_encode text).
Proof.
induction 1 as [|c text [_ Hc] _ IH]; [constructor|].
unfold utf8_encode. simpl. apply Forall_app. split; assumption.
Qed.

(** C2.  For every input byte stream, the text the sanitizer writes holds no
  character of the class U+0000..U+0008, U+000B, U+000C, U+000E..U+001F,
  and its UTF-8 output holds no byte of that range either. *)
Theorem sanitize_no_control_characters (infile : list byte) :
exists text : list N,
  sanitize_bytes infile = utf8_encode text /\
  Forall (fun c => invalid_chars c = false) text /\
  Forall (fun b => invalid_chars (Byte.to_N b) = false) (sanitize_bytes infile).
Proof.
rewrite sanitize_bytes_unfold.
set (chunk := fst (read (1024 * 1024) infile)).
set (rest := snd (read (1024 * 1024) infile)).
assert (H : Forall clean (sub (strip (map cp437_decode chunk)) ++
                          strip (map cp437_decode rest))).
{ apply Forall_app. split; [apply clean_sub_from|]; apply clean_strip. }
exists (sub (strip (map cp437_decode chunk)) ++ strip (map cp437_decode rest)).
rewrite <- utf8_encode_app. split; [reflexivity|]. split.
- eapply Forall_impl; [exact H|]. now intros c [Hc _].
- now apply clean_utf8.
Qed.

(** C3, as stated, fails: on a document whose declaration names CP437 and
  whose first chunk carries the pattern a second time, the sanitizer
  rewrites both occurrences, where rewriting the declaration once and
  leaving every other occurrence alone gives a different output. *)
Lemma sanitize_rewrites_every_occurrence :
search (strip (map cp437_decode two_occurrences)) = Some 20%nat /\
sanitize_bytes two_occurrences =
  list_byte_of_string
      ("<?xml version='1.0' encoding=" +:+ DQ +:+ "UTF-8" +:+ DQ +:+
       "?><a>encoding=" +:+ DQ +:+ "UTF-8" +:+ DQ +:+ "</a>") /\
spec_sanitize_once two_occurrences =
  list_byte_of_string
      ("<?xml version='1.0' encoding=" +:+ DQ +:+ "UTF-8" +:+ DQ +:+
       "?><a>encoding='cp437'</a>") /\
sanitize_bytes two_occurrences <> spec_sanitize_once two_occurrences.
Proof.
split; [vm_compute; reflexivity|].
split; [vm_compute; reflexivity|].
split; [vm_compute; reflexivity|].
vm_compute. discriminate.
Qed.

(** C3, amended.  For every input whose first chunk, once the control
  characters are removed, carries the declaration pattern (in any letter
  casing), the output is the text before the first occurrence, then
  [encoding="UTF-8"], then the remainder of the first chunk with every
  further occurrence rewritten as well, then the later chunks, which are
  decoded, stripped and encoded but never rewritten. *)
Theorem sanitize_rewrites_first_chunk (infile : list byte) (n : nat) :
let chunk := fst (read (1024 * 1024) infile) in
let rest := snd (read (1024 * 1024) infile) in
let text := strip (map cp437_decode chunk) in
search text = Some n ->
sanitize_bytes infile =
  utf8_encode
    (firstn n text ++ replacement ++
     sub (skipn (n + length encoding_pattern) text)) ++
  utf8_encode (strip (map cp437_decode rest)).
Proof.
intros chunk rest text Hn. rewrite sanitize_bytes_unfold.
fold chunk rest text. now rewrite (sub_at_search text n Hn).
Qed.

Lemma sanitize_rewrites_first_chunk_witness :
search (strip (map cp437_decode (fst (read (1024 * 1024) two_occurrences)))) =
  Some 20%nat /\
sanitize_bytes two_occurrences =
  utf8_encode
    (firstn 20 (strip (map cp437_decode (fst (read (1024 * 1024) two_occurrences)))) ++
     replacement ++
     sub (skipn (20 + length encoding_pattern)
            (strip (map cp437_decode (fst (read (1024 * 1024) two_occurrences)))))) ++
  utf8_encode
    (strip (map cp437_decode (snd (read (1024 * 1024) two_occurrences)))).
Proof.
split; [vm_compute; reflexivity|].
apply (sanitize_rewrites_first_chunk two_occurrences 20).
vm_compute. reflexivity.
Defined.

End SanitizerFacts.

(** ** The connection monad *)

Lemma bind_ok {A B} (m : M A) (f : A -> M B) c a c' :
  m c = (Ok a, c') -> bind m f c = f a c'.
Proof. unfold bind. now intros ->. Qed.

Lemma bind_raise {A B} (m : M A) (f : A -> M B) c e c' :
  m c = (Raise e, c') -> bind m f c = (Raise e, c').
Proof. unfold bind. now intros ->. Qed.

Lemma bind_ret_unit (m : M unit) c : bind m (fun _ => ret tt) c = m c.
Proof. unfold bind, ret. destruct (m c) as [[[]|e] c']; reflexivity. Qed.

Lemma for_each_skip {A} (l : list A) (body : A -> M unit) c :
  (forall x, In x l -> body x c = (Ok tt, c)) -> for_each l body c = (Ok tt, c).
Proof.
  induction l as [|x l IH]; intros H; [reflexivity|].
  simpl. rewrite (bind_ok _ _ c tt c); [|apply H; now left].
  apply IH. intros y Hy. apply H. now right.
Qed.

Lemma for_each_app {A} (l1 l2 : list A) (body : A -> M unit) c :
  for_each (l1 ++ l2) body c = bind (for_each l1 body) (fun _ => for_each l2 body) c.
Proof.
  revert c. induction l1 as [|x l1 IH]; intros c; [reflexivity|].
  simpl. unfold bind in *. destruct (body x c) as [[[]|e] c1]; [|reflexivity].
  apply IH.
Qed.

(** ** run_import: files *)

Section RunImport.

Variable iterparse : list byte -> list string -> list element * bool.

Lemma find_plus_none (l : list string) acc :
  Forall (fun f => contains "legends_plus" (lower f) = false) l ->
  snd acc = None -> snd (fold_left find_step l acc) = None.
Proof.
  intros H. revert acc. induction H as [|f l Hf _ IH]; intros [a b] Hb; [exact Hb|].
  simpl. apply IH. unfold find_step. rewrite Hf.
  now destruct (contains "legends" (lower f)).
Qed.

Lemma find_legends_none (l : list string) acc :
  Forall (fun f => contains "legends" (lower f) = false \/
                   contains "legends_plus" (lower f) = true) l ->
  fst acc = None -> fst (fold_left find_step l acc) = None.
Proof.
  intros H. revert acc. induction H as [|f l Hf _ IH]; intros [a b] Ha; [exact Ha|].
  simpl. apply IH. unfold find_step.
  destruct (contains "legends_plus" (lower f)); [exact Ha|].
  destruct Hf as [-> | Hf]; [exact Ha | discriminate].
Qed.

(** C9.  When the directory holds no [*.xml] file whose lower-cased name
    contains "legends_plus", or none whose name contains "legends" without
    containing "legends_plus", run_import returns [False] and leaves the
    world as it found it: the store is not touched and no temporary file
    is created. *)
Theorem run_import_aborts_without_files (w : world) :
  Forall (fun f => contains "legends_plus" (lower f) = false)
         (glob_xml (map fst (base_dir w))) \/
  Forall (fun f => contains "legends" (lower f) = false \/
                   contains "legends_plus" (lower f) = true)
         (glob_xml (map fst (base_dir w))) ->
  run_import iterparse w = (Ok false, w).
Proof.
  intros H. unfold run_import.
  destruct (find_xml_files (map fst (base_dir w))) as [lf lpf] eqn:E.
  assert (Hnone : lf = None \/ lpf = None).
  { unfold find_xml_files in E. destruct H as [H | H].
    - right. change lpf with (snd (lf, lpf)). rewrite <- E.
      now apply (find_plus_none _ (None, None)).
    - left. change lf with (fst (lf, lpf)). rewrite <- E.
      now apply (find_legends_none _ (None, None)). }
  destruct Hnone as [-> | ->]; [reflexivity | now destruct lf].
Qed.

Lemma sanitize_creates filepath w path w' :
  sanitize_xml_file filepath w = (Ok path, w') ->
  path = mkstemp (temp_dir w) /\ temp_dir w !! path = None /\
  base_dir w' = base_dir w /\ store w' = store w /\
  exists content, temp_dir w' = <[path := content]> (temp_dir w).
Proof.
  unfold sanitize_xml_file.
  destruct (open_rb filepath (base_dir w)) as [infile|]; [|discriminate].
  intros [= <- <-]. simpl. repeat split.
  - unfold mkstemp. apply not_elem_of_dom. apply is_fresh.
  - now eexists.
Qed.

(** The [finally] block: once both calls of [sanitize_xml_file] have
    returned their paths, neither file exists when run_import is left,
    whether the [try] block returned or raised; the directory of temporary
    files is as it was before the run, and what run_import returns or
    raises is what the [try] block did. *)
Theorem run_import_unlinks_temp_files (w w1 w2 : world)
    (LEGENDS_FILE LEGENDS_PLUS_FILE legends_clean legends_plus_clean : string) :
  find_xml_files (map fst (base_dir w)) = (Some LEGENDS_FILE, Some LEGENDS_PLUS_FILE) ->
  sanitize_xml_file LEGENDS_FILE w = (Ok legends_clean, w1) ->
  sanitize_xml_file LEGENDS_PLUS_FILE w1 = (Ok legends_plus_clean, w2) ->
  is_Some (temp_dir w2 !! legends_clean) /\
  is_Some (temp_dir w2 !! legends_plus_clean) /\
  temp_dir (snd (run_import iterparse w)) !! legends_clean = None /\
  temp_dir (snd (run_import iterparse w)) !! legends_plus_clean = None /\
  temp_dir (snd (run_import iterparse w)) = temp_dir w /\
  fst (run_import iterparse w) =
    fst (import_passes iterparse (temp_dir w2 !!! legends_clean)
           (temp_dir w2 !!! legends_plus_clean) (init_db (store w2))).
Proof.
  intros Hfind H1 H2. unfold run_import. rewrite Hfind, H1, H2.
  apply sanitize_creates in H1 as (_ & Hfresh1 & _ & _ & content1 & Ht1).
  apply sanitize_creates in H2 as (_ & Hfresh2 & _ & _ & content2 & Ht2).
  rewrite Ht1 in Hfresh2.
  assert (Hne : legends_clean <> legends_plus_clean).
  { intros <-. now rewrite lookup_insert_eq in Hfresh2. }
  rewrite lookup_insert_ne in Hfresh2 by exact Hne.
  destruct (import_passes _ _ _ _) as [r c]. simpl fst.
  unfold unlink. cbn [temp_dir base_dir store].
  rewrite Ht2, Ht1.
  rewrite lookup_insert_ne, lookup_insert_eq by congruence.
  cbn [temp_dir base_dir store].
  rewrite lookup_delete_ne, lookup_insert_eq by congruence.
  cbn [temp_dir snd fst].
  assert (Hback : delete legends_plus_clean
            (delete legends_clean
               (<[legends_plus_clean:=content2]>
                  (<[legends_clean:=content1]> (temp_dir w)))) = temp_dir w).
  { rewrite (delete_insert_ne _ legends_clean legends_plus_clean) by congruence.
    rewrite delete_insert_eq, delete_insert_eq.
    rewrite (delete_id _ legends_clean) by exact Hfresh1. now apply delete_id. }
  rewrite Hback. repeat split; try (now eexists); assumption.
Qed.

End RunImport.

(** ** Importers: records without an id, repeatable fields *)

Lemma execute_ok s params vals c :
  adapt_all params = Some vals ->
  execute s params c =
  (Ok tt, Conn (run_statement s vals (working c)) (committed c) (counters c)).
Proof. unfold execute. now intros ->. Qed.

Lemma execute_raise s params c :
  adapt_all params = None -> execute s params c = (Raise InterfaceError, c).
Proof. unfold execute. now intros ->. Qed.

(** C10.  In the pass-2 site import, a flattened record whose [id] is absent
    or empty is skipped: the importer returns without an ownership update,
    without a structure row and without counting anything (the connection
    is unchanged), and the pass goes on with the records that follow. *)
Theorem import_site_plus_skips_without_id (data : dict) (c : conn) :
  dict_get "id" data = None \/ dict_get "id" data = Some (VStr "") ->
  import_site_plus data c = (Ok tt, c) /\
  forall (elem : element) (elems : list element) (count : nat),
    xml_to_dict elem = data ->
    stream_loop (elem :: elems) import_site_plus count c =
    stream_loop elems import_site_plus (S count) c.
Proof.
  intros H.
  assert (Hskip : import_site_plus data c = (Ok tt, c)).
  { unfold import_site_plus. destruct H as [-> | ->]; reflexivity. }
  split; [exact Hskip|].
  intros elem elems count <-. cbn [stream_loop].
  now rewrite (bind_ok _ _ c tt c Hskip).
Qed.

Lemma import_site_plus_skips_without_id_witness :
  import_site_plus [("name", VStr "x")] (init_db ∅) = (Ok tt, init_db ∅) /\
  forall (elem : element) (elems : list element) (count : nat),
    xml_to_dict elem = [("name", VStr "x")] ->
    stream_loop (elem :: elems) import_site_plus count (init_db ∅) =
    stream_loop elems import_site_plus (S count) (init_db ∅).
Proof.
  apply (import_site_plus_skips_without_id [("name", VStr "x")] (init_db ∅)).
  left. reflexivity.
Defined.

(** The body of the loop of each repeatable field. *)
Lemma field_rows_unfold f parent :
  exists body : value -> M unit,
    (forall v, field_rows f parent v = for_each (iter (normalize f v)) body) /\
    (forall s c, body (VStr s) c = (Ok tt, c) \/ f = Style).
Proof.
  destruct f; (eexists; split; [intros; reflexivity|]); intros s c;
    try (left; reflexivity); now right.
Qed.

Lemma for_each_ext {A} (l : list A) (b1 b2 : A -> M unit) :
  (forall x, In x l -> forall c, b1 x c = b2 x c) ->
  forall c, for_each l b1 c = for_each l b2 c.
Proof.
  induction l as [|x l IH]; intros H c; [reflexivity|].
  simpl. unfold bind. rewrite (H x) by now left.
  destruct (b2 x c) as [[[]|e] c1]; [|reflexivity].
  apply IH. intros y Hy. apply H. now right.
Qed.

Lemma for_each_map {A B} (g : A -> B) (l : list A) (body : B -> M unit) c :
  for_each (map g l) body c = for_each l (fun x => body (g x)) c.
Proof.
  revert c. induction l as [|x l IH]; intros c; [reflexivity|].
  simpl. unfold bind. destruct (body (g x) c) as [[[]|e] c1]; [apply IH | reflexivity].
Qed.

(** A single occurrence is consumed as the one-item list of it. *)
Lemma field_rows_single f parent body (c0 : element) :
  (forall v, field_rows f parent v = for_each (iter (normalize f v)) body) ->
  (forall s c, body (VStr s) c = (Ok tt, c) \/ f = Style) ->
  (f = Style -> children c0 = []) ->
  forall c, field_rows f parent (child_value c0) c = body (child_value c0) c.
Proof.
  intros Hrows Hstr Hleaf c. rewrite Hrows.
  unfold child_value in *. destruct (children c0) as [|x xs].
  - destruct f; try (cbn [normalize is_dict is_str iter for_each];
      first [ apply bind_ret_unit
            | rewrite for_each_skip;
              [ symmetry; destruct (Hstr (text_or_empty c0) c) as [E|E];
                [exact E | discriminate E]
              | intros y Hy; apply in_map_iff in Hy as (s & <- & _);
                destruct (Hstr s c) as [E|E]; [exact E | discriminate E] ] ]).
  - destruct f; try (cbn [normalize is_dict is_str iter for_each];
      apply bind_ret_unit).
    now specialize (Hleaf eq_refl).
Qed.

(** What an importer reads under a repeatable tag of a flattened element is
    [field_value] of the children that carry the tag. *)
Lemma get_or_list_occurrences (t : string) (e : element) :
  get_or_list t (xml_to_dict e) = field_value (occurrences t e).
Proof.
  unfold get_or_list, field_value, occurrences.
  now rewrite xml_to_dict_fold, flatten_children_get.
Qed.

(** C7, as stated, fails for [style]: a single style element that has a
    child element is iterated as a dict, one row per key, while the same
    element among several is bound as a parameter and raises. *)
Lemma style_with_children_not_normalized :
  field_rows Style (Some (VStr "1")) (field_value [nested_style]) (init_db ∅) =
    (Ok tt,
     Conn {["written_content_styles" :=
              [[("written_content_id", SText "1"); ("style", SText "a")]]]}
          ∅ {["style_count" := 1%nat]}) /\
  field_rows Style (Some (VStr "1")) (field_value [nested_style; plain_style])
             (init_db ∅) =
    (Raise InterfaceError, init_db ∅) /\
  field_rows Style (Some (VStr "1")) (field_value [nested_style; plain_style])
             (init_db ∅) <>
  for_each [nested_style; plain_style]
    (fun c => field_rows Style (Some (VStr "1")) (field_value [c])) (init_db ∅).
Proof.
  split; [vm_compute; reflexivity|].
  split; [vm_compute; reflexivity|].
  vm_compute. discriminate.
Qed.

(** C7, amended.  For each of the seven repeatable fields, a record that
    carries the child elements [c0 :: cs] under the tag (one element or
    many) is consumed exactly as if each element had been the only one, in
    document order: same rows, same counters, same exception if any.  For
    [style] this holds when the style elements are leaves (text only); for
    the six other fields it holds for every child element. *)
Theorem repeatable_field_normalized (f : repeatable) (parent : option value)
    (c0 : element) (cs : list element) (c : conn) :
  (f = Style -> Forall (fun child => children child = []) (c0 :: cs)) ->
  field_rows f parent (field_value (c0 :: cs)) c =
  for_each (c0 :: cs) (fun child => field_rows f parent (field_value [child])) c.
Proof.
  intros Hleaf.
  destruct (field_rows_unfold f parent) as (body & Hrows & Hstr).
  destruct cs as [|c1 cs].
  - cbn [for_each]. now rewrite bind_ret_unit.
  - transitivity (for_each (c0 :: c1 :: cs) (fun child => body (child_value child)) c).
    + rewrite Hrows. unfold field_value.
      cbn [map promote default from_option id]. 
      replace (normalize f (VList (child_value c0 :: child_value c1 :: map child_value cs)))
        with (VList (map child_value (c0 :: c1 :: cs))) by now destruct f.
      cbn [iter]. apply for_each_map.
    + apply for_each_ext. intros child Hin s. symmetry.
      apply (field_rows_single f parent body child Hrows Hstr).
      intros Hf. specialize (Hleaf Hf).
      rewrite Forall_forall in Hleaf. apply Hleaf. now apply list_elem_of_In.
Qed.

Lemma repeatable_field_normalized_witness :
  field_rows Style (Some (VStr "1")) (field_value [plain_style; plain_style])
             (init_db ∅) =
  for_each [plain_style; plain_style]
    (fun child => field_rows Style (Some (VStr "1")) (field_value [child]))
    (init_db ∅).
Proof.
  apply (repeatable_field_normalized Style (Some (VStr "1")) plain_style
           [plain_style] (init_db ∅)).
  intros _. repeat constructor.
Defined.

(** ** Tables *)

Lemma table_insert (T T' : string) rows (db : database) :
  table T' (<[T := rows]> db) = if decide (T' = T) then rows else table T' db.
Proof.
  unfold table. destruct (decide (T' = T)) as [-> | Hne].
  - apply lookup_total_insert_eq.
  - now apply lookup_total_insert_ne.
Qed.

Lemma col_set_col_eq c v r : col c (set_col c v r) = v.
Proof.
  induction r as [|[c' v'] r IH]; simpl.
  - now rewrite String.eqb_refl.
  - destruct (String.eqb c' c) eqn:E; simpl; [now rewrite String.eqb_refl | now rewrite E].
Qed.

Lemma col_set_col_ne c c' v r : c <> c' -> col c' (set_col c v r) = col c' r.
Proof.
  intros Hne. induction r as [|[c0 v0] r IH]; simpl.
  - apply String.eqb_neq in Hne. now rewrite Hne.
  - destruct (String.eqb c0 c) eqn:E; simpl.
    + apply String.eqb_eq in E. subst c0.
      apply String.eqb_neq in Hne. now rewrite Hne.
    + destruct (String.eqb c0 c'); [reflexivity | apply IH].
Qed.

(** A loop that inserts one row per dict of the list appends exactly those
    rows to its table and touches no other table. *)
Lemma insert_loop T cols (params : dict -> list param) name l c c' :
  for_each l
    (fun v => match v with
              | VDict d => execute (InsertInto T cols) (params d) ;; incr name
              | _ => ret tt
              end) c = (Ok tt, c') ->
  exists rows,
    (forall T', table T' (working c') =
                if decide (T' = T) then table T (working c) ++ rows
                else table T' (working c)) /\
    committed c' = committed c /\
    Forall2 (fun v r => exists d vals,
               v = VDict d /\ adapt_all (params d) = Some vals /\
               r = combine cols vals)
            (List.filter is_dict l) rows.
Proof.
  revert c. induction l as [|v l IH]; intros c.
  - intros [= <-]. exists []. repeat split; [|constructor].
    intros T'. rewrite app_nil_r. now destruct (decide (T' = T)) as [-> |].
  - cbn [for_each]. unfold bind at 1.
    destruct v as [s | d | l0]; cbn [ret List.filter is_dict].
    + apply IH.
    + unfold bind at 1.
      destruct (adapt_all (params d)) as [vals|] eqn:Ev.
      * rewrite (execute_ok _ _ vals) by exact Ev. cbn [incr working committed counters].
        intros H. apply IH in H as (rows & Htab & Hcom & Hrows).
        cbn [working committed run_statement] in *.
        exists (combine cols vals :: rows). repeat split.
        -- intros T'. rewrite Htab. rewrite !table_insert.
           destruct (decide (T' = T)) as [-> |]; [|reflexivity].
           rewrite decide_True by reflexivity. now rewrite <- app_assoc.
        -- exact Hcom.
        -- constructor; [|exact Hrows]. now exists d, vals.
      * rewrite execute_raise by exact Ev. discriminate.
    + apply IH.
Qed.

Lemma filter_is_dict_strs (l : list string) : List.filter is_dict (map VStr l) = [].
Proof. induction l; [reflexivity | exact IHl]. Qed.

(** ** The pass-2 site import *)

Lemma structure_rows_spec (i : string) (struct_list : value) c c' :
  structure_rows (Some (VStr i)) struct_list c = (Ok tt, c') ->
  exists rows,
    (forall T', table T' (working c') =
                if decide (T' = "structures")
                then table "structures" (working c) ++ rows
                else table T' (working c)) /\
    Forall2 (fun v r => structure_row i v = Some r)
      (List.filter is_dict
         (iter (if is_dict struct_list then VList [struct_list] else struct_list)))
      rows.
Proof.
  unfold structure_rows. intros H.
  apply insert_loop in H as (rows & Htab & _ & Hrows).
  exists rows. split; [exact Htab|].
  eapply Forall2_impl; [exact Hrows|].
  intros v r (d & vals & -> & Hvals & ->). cbn [structure_row]. now rewrite Hvals.
Qed.

Lemma struct_list_items_iter (structures : dict) :
  let struct_list := get_or_list "structure" structures in
  List.filter is_dict
    (iter (if is_dict struct_list then VList [struct_list] else struct_list)) =
  List.filter is_dict
    match dict_get "structure" structures with
    | None => []
    | Some (VList l) => l
    | Some v => [v]
    end.
Proof.
  unfold get_or_list. destruct (dict_get "structure" structures) as [[s | d | l]|];
    try reflexivity.
  cbn [default from_option id is_dict iter]. apply filter_is_dict_strs.
Qed.

Lemma update_owner_rows (i : string) (civ owner : sqlval) (rows : list row) :
  Forall2
    (fun old new =>
       (forall x, x <> "civ_id" -> x <> "cur_owner_id" -> col x new = col x old) /\
       (col "id" old = SText i ->
        col "civ_id" new = civ /\ col "cur_owner_id" new = owner) /\
       (col "id" old <> SText i -> new = old))
    rows
    (update_rows ["civ_id"; "cur_owner_id"] "id" [civ; owner; SText i] rows).
Proof.
  unfold update_rows. cbn [length List.nth firstn].
  induction rows as [|r rows IH]; [constructor|].
  cbn [map]. constructor; [|exact IH].
  unfold sql_eq. destruct (bool_decide_reflect (SText i = col "id" r)) as [E | E].
  - unfold assign. cbn [combine fold_left fst snd]. split; [|split].
    + intros x H1 H2. now rewrite !col_set_col_ne by congruence.
    + intros _. split.
      * rewrite col_set_col_ne by discriminate. apply col_set_col_eq.
      * apply col_set_col_eq.
    + intros Hne. now symmetry in E.
  - split; [|split].
    + reflexivity.
    + intros Hid. now symmetry in Hid.
    + reflexivity.
Qed.

(** C5, as stated, fails, in two ways.  A Structure child that is a leaf
    element is listed in the pass-2 record and is not inserted; and when
    the Structure children come under two [structures] wrappers, none of
    them is inserted, although each has fields of its own.  In both cases
    the import returns, the ownership update is made, the identity columns
    are kept, and the [structures] table stays empty. *)
Lemma import_site_plus_skips_listed_structures :
  (length (listed_structure_elements site_with_leaf_structure) = 1%nat /\
   import_site_plus (xml_to_dict site_with_leaf_structure)
     (Conn {["sites" := [pass1_site_row]]} ∅ ∅) =
   (Ok tt,
    Conn {["sites" :=
             [pass1_site_row ++ [("civ_id", SText "7"); ("cur_owner_id", SNull)]]]}
         ∅ ∅) /\
   table "structures"
     (working (snd (import_site_plus (xml_to_dict site_with_leaf_structure)
                      (Conn {["sites" := [pass1_site_row]]} ∅ ∅)))) = []) /\
  (length (listed_structure_elements site_with_two_wrappers) = 2%nat /\
   forallb has_children (listed_structure_elements site_with_two_wrappers) = true /\
   import_site_plus (xml_to_dict site_with_two_wrappers)
     (Conn {["sites" := [pass1_site_row]]} ∅ ∅) =
   (Ok tt,
    Conn {["sites" :=
             [pass1_site_row ++ [("civ_id", SText "7"); ("cur_owner_id", SNull)]]]}
         ∅ ∅) /\
   table "structures"
     (working (snd (import_site_plus (xml_to_dict site_with_two_wrappers)
                      (Conn {["sites" := [pass1_site_row]]} ∅ ∅)))) = []).
Proof.
  split.
  - split; [reflexivity|]. split; vm_compute; reflexivity.
  - split; [reflexivity|]. split; [reflexivity|]. split; vm_compute; reflexivity.
Qed.

(** The pass-2 import of a record with a non-empty id [i]: what it does
    to [sites], and the rows it appends to [structures], one for each item
    of the loop that is a dict. *)
Lemma import_site_plus_rows (data : dict) (i : string) (c c' : conn) :
  dict_get "id" data = Some (VStr i) -> i <> "" ->
  import_site_plus data c = (Ok tt, c') ->
  exists (civ owner : sqlval) (rows : list row),
    adapt (PVal (dict_get "civ_id" data)) = Some civ /\
    adapt (PVal (dict_get "cur_owner_id" data)) = Some owner /\
    Forall2
      (fun old new =>
         (forall x, x <> "civ_id" -> x <> "cur_owner_id" -> col x new = col x old) /\
         (col "id" old = SText i ->
          col "civ_id" new = civ /\ col "cur_owner_id" new = owner) /\
         (col "id" old <> SText i -> new = old))
      (table "sites" (working c)) (table "sites" (working c')) /\
    table "structures" (working c') = table "structures" (working c) ++ rows /\
    Forall2 (fun v r => structure_row i v = Some r /\ col "site_id" r = SText i)
            (List.filter is_dict (struct_list_items data)) rows.
Proof.
  intros Hid Hi. unfold import_site_plus. rewrite Hid.
  assert (Ht : truthy (Some (VStr i)) = true).
  { cbn [truthy]. apply String.eqb_neq in Hi. now rewrite Hi. }
  rewrite Ht. unfold bind at 1.
  destruct (adapt (PVal (dict_get "civ_id" data))) as [civ|] eqn:Ec;
    [|unfold execute; cbn [adapt_all]; rewrite Ec; discriminate].
  destruct (adapt (PVal (dict_get "cur_owner_id" data))) as [owner|] eqn:Eo;
    [|unfold execute; cbn [adapt_all]; rewrite Ec, Eo; discriminate].
  rewrite (execute_ok _ _ [civ; owner; SText i])
    by (cbn [adapt_all]; now rewrite Ec, Eo).
  cbn [run_statement working committed counters].
  set (c1 := Conn _ _ _).
  assert (Hsites : table "sites" (working c1) =
            update_rows ["civ_id"; "cur_owner_id"] "id" [civ; owner; SText i]
              (table "sites" (working c))).
  { unfold c1. cbn [working]. rewrite table_insert. now rewrite decide_True. }
  assert (Hstruct : table "structures" (working c1) = table "structures" (working c)).
  { unfold c1. cbn [working]. rewrite table_insert. now rewrite decide_False. }
  assert (Hdone : forall rows,
    (forall T', table T' (working c') =
                if decide (T' = "structures")
                then table "structures" (working c1) ++ rows
                else table T' (working c1)) ->
    Forall2 (fun v r => structure_row i v = Some r)
            (List.filter is_dict (struct_list_items data)) rows ->
    exists (civ0 owner0 : sqlval) (rows0 : list row),
      Some civ = Some civ0 /\ Some owner = Some owner0 /\
      Forall2
        (fun old new =>
           (forall x, x <> "civ_id" -> x <> "cur_owner_id" -> col x new = col x old) /\
           (col "id" old = SText i ->
            col "civ_id" new = civ0 /\ col "cur_owner_id" new = owner0) /\
           (col "id" old <> SText i -> new = old))
        (table "sites" (working c)) (table "sites" (working c')) /\
      table "structures" (working c') = table "structures" (working c) ++ rows0 /\
      Forall2 (fun v r => structure_row i v = Some r /\ col "site_id" r = SText i)
              (List.filter is_dict (struct_list_items data)) rows0).
  { intros rows Htab Hrows. exists civ, owner, rows. repeat split.
    - rewrite (Htab "sites"), decide_False by discriminate.
      rewrite Hsites. apply update_owner_rows.
    - rewrite (Htab "structures"), decide_True by reflexivity. now rewrite Hstruct.
    - eapply Forall2_impl; [exact Hrows|].
      intros v r Hr. split; [exact Hr|].
      destruct v as [s | d | l]; cbn [structure_row adapt_all] in Hr;
        try discriminate Hr.
      destruct (adapt (PVal (dict_get "id" d))), (adapt (PVal (dict_get "name" d))),
        (adapt (PVal (dict_get "name2" d))), (adapt (PVal (dict_get "type" d)));
        cbn in Hr; try discriminate Hr.
      injection Hr as <-. reflexivity. }
  unfold struct_list_items in *.
  destruct (dict_get "structures" data) as [[s | structures | l]|];
    cbn [default from_option id].
  - intros [= <-]. apply (Hdone []); [|constructor].
    intros T'. rewrite app_nil_r. now destruct (decide (T' = "structures")) as [-> |].
  - intros H. apply structure_rows_spec in H as (rows & Htab & Hrows).
    rewrite struct_list_items_iter in Hrows. now apply (Hdone rows).
  - intros [= <-]. apply (Hdone []); [|constructor].
    intros T'. rewrite app_nil_r. now destruct (decide (T' = "structures")) as [-> |].
  - intros H. apply structure_rows_spec in H as (rows & Htab & Hrows).
    apply (Hdone rows); [exact Htab | exact Hrows].
Qed.

Lemma filter_dict_child_values (ss : list element) :
  List.filter is_dict (map child_value ss) =
  map (fun s => VDict (xml_to_dict s)) (List.filter has_children ss).
Proof.
  induction ss as [|s ss IH]; [reflexivity|].
  cbn [map List.filter]. rewrite IH. unfold child_value, has_children.
  destruct (children s); reflexivity.
Qed.

Lemma struct_list_items_flattened (e : element) :
  List.filter is_dict (struct_list_items (xml_to_dict e)) =
  map (fun s => VDict (xml_to_dict s))
    match occurrences "structures" e with
    | _ :: _ :: _ => []
    | _ => List.filter has_children (listed_structure_elements e)
    end.
Proof.
  unfold struct_list_items, listed_structure_elements.
  rewrite (flattened_field "structures").
  destruct (occurrences "structures" e) as [|w [|w' ws]]; [reflexivity| |reflexivity].
  cbn [map promote concat]. rewrite app_nil_r. unfold child_value at 1.
  destruct (children w) as [|c1 cs1] eqn:Ec.
  - unfold occurrences. now rewrite Ec.
  - rewrite (flattened_field "structure").
    rewrite <- filter_dict_child_values. f_equal.
    destruct (occurrences "structure" w) as [|s [|s' ss]]; [reflexivity| |reflexivity].
    cbn [map promote]. unfold child_value. now destruct (children s).
Qed.

(** C5, amended.  For a pass-2 site element whose flattened record has a
    non-empty id [i] and whose import returns: every row of [sites] keeps
    all its columns other than [civ_id] and [cur_owner_id] (name, type,
    coords, rectangle among them); the rows with id [i] get the record's
    [civ_id] and [cur_owner_id] (NULL when absent), the other rows are
    unchanged; and when the element has at most one [structures] wrapper,
    the rows appended to [structures] are exactly those of the listed
    Structure children that have child elements of their own, in document
    order, each with [i] as [site_id].  A listed Structure child that is a
    leaf is skipped, and with two or more wrappers no row is appended. *)
Theorem import_site_plus_updates_owner (e : element) (i : string) (c c' : conn) :
  dict_get "id" (xml_to_dict e) = Some (VStr i) -> i <> "" ->
  import_site_plus (xml_to_dict e) c = (Ok tt, c') ->
  exists (civ owner : sqlval) (rows : list row),
    adapt (PVal (dict_get "civ_id" (xml_to_dict e))) = Some civ /\
    adapt (PVal (dict_get "cur_owner_id" (xml_to_dict e))) = Some owner /\
    Forall2
      (fun old new =>
         (forall x, x <> "civ_id" -> x <> "cur_owner_id" -> col x new = col x old) /\
         (col "id" old = SText i ->
          col "civ_id" new = civ /\ col "cur_owner_id" new = owner) /\
         (col "id" old <> SText i -> new = old))
      (table "sites" (working c)) (table "sites" (working c')) /\
    table "structures" (working c') = table "structures" (working c) ++ rows /\
    Forall2
      (fun s r =>
         structure_row i (VDict (xml_to_dict s)) = Some r /\
         col "site_id" r = SText i)
      match occurrences "structures" e with
      | _ :: _ :: _ => []
      | _ => List.filter has_children (listed_structure_elements e)
      end
      rows.
Proof.
  intros Hid Hi H.
  destruct (import_site_plus_rows _ _ _ _ Hid Hi H)
    as (civ & owner & rows & Hciv & Howner & Hsites & Htab & Hrows).
  exists civ, owner, rows.
  split; [exact Hciv|]. split; [exact Howner|]. split; [exact Hsites|].
  split; [exact Htab|].
  rewrite struct_list_items_flattened in Hrows.
  now apply Forall2_fmap_l in Hrows.
Qed.

(** ** Upsert by id *)

Lemma stateless_ret {A} (a : A) : stateless (ret a).
Proof. now intros c1 c2. Qed.

Lemma stateless_bind {A B} (m : M A) (f : A -> M B) :
  stateless m -> (forall a, stateless (f a)) -> stateless (bind m f).
Proof.
  intros Hm Hf c1 c2. unfold bind. specialize (Hm c1 c2).
  destruct (m c1) as [[a1|e1] c1'], (m c2) as [[a2|e2] c2']; simpl in Hm;
    try discriminate Hm.
  - injection Hm as ->. apply Hf.
  - injection Hm as ->. reflexivity.
Qed.

Lemma stateless_execute s params : stateless (execute s params).
Proof. intros c1 c2. unfold execute. now destruct (adapt_all params). Qed.

Lemma stateless_incr name : stateless (incr name).
Proof. now intros c1 c2. Qed.

Lemma stateless_for_each {A} (l : list A) (body : A -> M unit) :
  (forall x, stateless (body x)) -> stateless (for_each l body).
Proof.
  intros H. induction l as [|x l IH]; [apply stateless_ret|].
  cbn [for_each]. apply stateless_bind; [apply H | intros _; exact IH].
Qed.

Lemma stateless_insert_loop T cols (params : dict -> list param) name l :
  stateless
    (for_each l
       (fun v => match v with
                 | VDict d => execute (InsertInto T cols) (params d) ;; incr name
                 | _ => ret tt
                 end)).
Proof.
  apply stateless_for_each. intros [s | d | l0]; try apply stateless_ret.
  apply stateless_bind; [apply stateless_execute | intros _; apply stateless_incr].
Qed.

Lemma stateless_dimension_importer k data : stateless (dimension_importer k data).
Proof.
  destruct k; try apply stateless_execute;
    (apply stateless_bind; [apply stateless_execute | intros _];
     apply stateless_bind; [apply stateless_insert_loop | intros _];
     apply stateless_insert_loop).
Qed.

Lemma stateless_stream_loop elems callback count :
  (forall data, stateless (callback data)) ->
  stateless (stream_loop elems callback count).
Proof.
  intros H. revert count. induction elems as [|e elems IH]; intros count.
  - apply stateless_ret.
  - cbn [stream_loop]. apply stateless_bind; [apply H | intros _; apply IH].
Qed.

(** What a dimension importer leaves in its table. *)
Lemma dimension_importer_table k data c c' :
  dimension_importer k data c = (Ok tt, c') ->
  exists r,
    dimension_row k data = Some r /\
    table (dimension_table k) (working c') =
    insert_or_replace r (table (dimension_table k) (working c)).
Proof.
  assert (Hexec : forall cols params c1 c1',
    execute (InsertOrReplaceInto (dimension_table k) cols) params c1 = (Ok tt, c1') ->
    exists vals, adapt_all params = Some vals /\
      table (dimension_table k) (working c1') =
      insert_or_replace (combine cols vals) (table (dimension_table k) (working c1))).
  { intros cols params c1 c1'. unfold execute.
    destruct (adapt_all params) as [vals|]; [|discriminate].
    intros [= <-]. exists vals. split; [reflexivity|].
    cbn [working run_statement]. rewrite table_insert. now rewrite decide_True. }
  assert (Hrow : forall vals,
    adapt_all (dimension_params k data) = Some vals ->
    dimension_row k data = Some (combine (dimension_columns k) vals)).
  { intros vals E. unfold dimension_row. now rewrite E. }
  destruct k; cbn [dimension_importer];
    unfold import_region, import_underground, import_site, import_artifact;
    try (intros H; apply Hexec in H as (vals & Hv & Ht);
         eexists; split; [apply Hrow; exact Hv | exact Ht]).
  - unfold import_entity, bind.
    destruct (execute _ _ c) as [[[]|e] c1] eqn:E1; [|discriminate].
    destruct (entity_position_rows _ _ c1) as [[[]|e] c2] eqn:E2; [|discriminate].
    intros E3.
    apply Hexec in E1 as (vals & Hv & Ht).
    apply insert_loop in E2 as (rows2 & Ht2 & _).
    apply insert_loop in E3 as (rows3 & Ht3 & _).
    exists (combine (dimension_columns Entities) vals). split; [now apply Hrow|].
    cbn [dimension_table] in *.
    rewrite Ht3, decide_False by discriminate.
    rewrite Ht2, decide_False by discriminate. exact Ht.
  - unfold import_hf, bind.
    destruct (execute _ _ c) as [[[]|e] c1] eqn:E1; [|discriminate].
    destruct (entity_link_rows _ _ c1) as [[[]|e] c2] eqn:E2; [|discriminate].
    intros E3.
    apply Hexec in E1 as (vals & Hv & Ht).
    apply insert_loop in E2 as (rows2 & Ht2 & _).
    apply insert_loop in E3 as (rows3 & Ht3 & _).
    exists (combine (dimension_columns HistoricalFigures) vals).
    split; [now apply Hrow|].
    cbn [dimension_table] in *.
    rewrite Ht3, decide_False by discriminate.
    rewrite Ht2, decide_False by discriminate. exact Ht.
Qed.

Lemma dimension_row_id k data i r :
  dict_get "id" data = Some (VStr i) ->
  dimension_row k data = Some r -> col "id" r = SText i.
Proof.
  intros Hid. unfold dimension_row.
  assert (H : exists ps, dimension_params k data = PVal (Some (VStr i)) :: ps /\
                         exists cs, dimension_columns k = "id" :: cs).
  { rewrite <- Hid. destruct k; (eexists; split; [reflexivity | eexists; reflexivity]). }
  destruct H as (ps & -> & cs & ->). cbn [adapt_all adapt].
  destruct (adapt_all ps); [|discriminate]. now intros [= <-].
Qed.

Lemma filter_none {A} (p : A -> bool) (l : list A) :
  (forall x, In x l -> p x = false) -> List.filter p l = [].
Proof.
  induction l as [|x l IH]; intros H; [reflexivity|].
  cbn [List.filter]. rewrite (H x) by now left.
  apply IH. intros y Hy. apply H. now right.
Qed.

Lemma with_id_insert (i : string) (r : row) (rows : list row) :
  col "id" r = SText i -> with_id i (insert_or_replace r rows) = [r].
Proof.
  intros Hr. unfold with_id, insert_or_replace. rewrite List.filter_app.
  cbn [List.filter]. rewrite Hr, bool_decide_eq_true_2 by reflexivity.
  rewrite filter_none; [reflexivity|].
  intros old Hin. apply List.filter_In in Hin as [_ Hnc].
  unfold conflicts, primary_key, sql_eq in Hnc. rewrite Hr in Hnc.
  apply bool_decide_eq_false_2. intros E. rewrite E in Hnc.
  now rewrite bool_decide_eq_true_2 in Hnc.
Qed.

Lemma filter_filter_and {A} (p q : A -> bool) (l : list A) :
  List.filter q (List.filter p l) = List.filter (fun x => p x && q x) l.
Proof.
  induction l as [|x l IH]; [reflexivity|].
  cbn [List.filter]. destruct (p x); cbn [List.filter andb]; [|exact IH].
  destruct (q x); now rewrite IH.
Qed.

Lemma upsert_all_split (rs rows : list row) :
  upsert_all rs rows = List.filter (untouched rs) rows ++ upsert_all rs [].
Proof.
  revert rows. induction rs as [|r rs IH]; intros rows.
  - cbn. rewrite app_nil_r. induction rows as [|x rows IHr]; [reflexivity|].
    cbn. now rewrite <- IHr.
  - unfold upsert_all in *. cbn [fold_left].
    rewrite IH. rewrite (IH (insert_or_replace r [])).
    unfold insert_or_replace. cbn [List.filter app].
    rewrite List.filter_app, filter_filter_and, <- app_assoc. reflexivity.
Qed.

Lemma upsert_all_touched (rs : list row) :
  Forall (fun r => conflicts r r = true) rs ->
  Forall (fun old => untouched rs old = false) (upsert_all rs []).
Proof.
  induction 1 as [|r rs Hr _ IH]; [constructor|].
  unfold upsert_all in *. cbn [fold_left].
  fold (upsert_all rs (insert_or_replace r [])). rewrite upsert_all_split.
  apply Forall_app. split.
  - unfold insert_or_replace. cbn [List.filter app].
    destruct (untouched rs r); constructor; [|constructor].
    cbn [untouched forallb]. now rewrite Hr.
  - eapply Forall_impl; [exact IH|]. intros old Hold.
    cbn [untouched forallb]. fold (untouched rs old). rewrite Hold.
    apply andb_false_r.
Qed.

(** Running the same upsert pass again changes nothing. *)
Lemma upsert_all_idempotent (rs rows : list row) :
  Forall (fun r => conflicts r r = true) rs ->
  upsert_all rs (upsert_all rs rows) = upsert_all rs rows.
Proof.
  intros Hrs. rewrite (upsert_all_split rs (upsert_all rs rows)).
  rewrite (upsert_all_split rs rows) at 1.
  rewrite List.filter_app, filter_filter_and.
  rewrite (filter_none _ (upsert_all rs [])).
  - rewrite app_nil_r. rewrite (upsert_all_split rs rows). f_equal.
    apply List.filter_ext. intros old. now destruct (untouched rs old).
  - intros old Hin. pose proof (upsert_all_touched rs Hrs) as H.
    rewrite Forall_forall in H. apply H. now apply list_elem_of_In.
Qed.

Lemma stream_loop_rows k elems count c m c' :
  stream_loop elems (dimension_importer k) count c = (Ok m, c') ->
  exists rs,
    Forall2 (fun e r => dimension_row k (xml_to_dict e) = Some r) elems rs /\
    table (dimension_table k) (working c') =
    upsert_all rs (table (dimension_table k) (working c)).
Proof.
  revert count c. induction elems as [|e elems IH]; intros count c.
  - intros [= _ <-]. exists []. split; [constructor | reflexivity].
  - cbn [stream_loop]. unfold bind at 1.
    destruct (dimension_importer k (xml_to_dict e) c) as [[[]|ex] c1] eqn:E;
      [|discriminate].
    intros H. apply IH in H as (rs & Hrs & Ht).
    apply dimension_importer_table in E as (r & Hr & Ht1).
    exists (r :: rs). split; [now constructor|].
    rewrite Ht, Ht1. reflexivity.
Qed.



(** ** json: decoding what was encoded *)

Lemma value_ind_nested (P : value -> Prop) :
  (forall s, P (VStr s)) ->
  (forall d, Forall (fun kv => P (snd kv)) d -> P (VDict d)) ->
  (forall l, Forall P l -> P (VList l)) ->
  forall v, P v.
Proof.
  intros Hs Hd Hl. fix IH 1. intros [s | d | l].
  - apply Hs.
  - apply Hd. induction d as [|[k v] d IHd]; constructor; [apply IH | exact IHd].
  - apply Hl. induction l as [|v l IHl]; constructor; [apply IH | exact IHl].
Qed.

Lemma wf_dict d :
  wf (VDict d) <-> NoDup (map fst d) /\ Forall (fun kv => wf (snd kv)) d.
Proof.
  cbn [wf]. split; intros [Hk Hv]; (split; [exact Hk|]).
  - induction d as [|[k v] d IH]; constructor.
    + apply Hv.
    + apply IH; [now inversion Hk | apply Hv].
  - induction Hv as [|[k v] d Hv _ IH]; [exact I|].
    split; [exact Hv | apply IH; now inversion Hk].
Qed.

Lemma wf_list l : wf (VList l) <-> Forall wf l.
Proof.
  cbn [wf]. split.
  - induction l as [|v l IH]; intros H; constructor; [apply H | apply IH, H].
  - induction 1 as [|v l Hv _ IH]; [exact I | now split].
Qed.

Lemma dumps_dict d : dumps (VDict d) = "{"%char :: members_text d.
Proof. reflexivity. Qed.

Lemma dumps_list l : dumps (VList l) = "["%char :: items_text l.
Proof. reflexivity. Qed.

Lemma members_text_cons k v d :
  members_text ((k, v) :: d) =
  quote k ++ [":"; " "]%char ++ dumps v ++
  match d with [] => [] | _ :: _ => [","; " "]%char end ++ members_text d.
Proof. reflexivity. Qed.

Lemma items_text_cons v l :
  items_text (v :: l) =
  dumps v ++ match l with [] => [] | _ :: _ => [","; " "]%char end ++ items_text l.
Proof. reflexivity. Qed.

Ltac divlia := zify; Z.to_euclidean_division_equations; lia.

Lemma string_of_list_ascii_app (l l' : list ascii) :
  string_of_list_ascii (l ++ l') = fold_right String (string_of_list_ascii l') l.
Proof. induction l as [|c l IH]; [reflexivity|]. cbn. now rewrite IH. Qed.

Lemma encode_cons c pts :
  encode (c :: pts) = fold_right String (encode pts) (utf8 c).
Proof. unfold encode. cbn [map concat]. apply string_of_list_ascii_app. Qed.

Lemma hex_digits_checked :
  forallb
    (fun n => match unhex (hex_digit (N.of_nat n)) with
              | Some m => (m =? N.of_nat n)%N
              | None => false
              end)
    (seq 0 16) = true.
Proof. vm_compute. reflexivity. Qed.

Lemma unhex_hex_digit n : (n < 16)%N -> unhex (hex_digit n) = Some n.
Proof.
  intros H. pose proof hex_digits_checked as C. rewrite forallb_forall in C.
  specialize (C (N.to_nat n)). rewrite N2Nat.id in C.
  destruct (unhex (hex_digit n)) as [m|].
  - f_equal. apply N.eqb_eq, C, in_seq. lia.
  - discriminate C. apply in_seq. lia.
Qed.

Lemma unhex4_hex4 n :
  (n < 65536)%N ->
  unhex4 (hex_digit (n / 4096)) (hex_digit ((n / 256) mod 16))
         (hex_digit ((n / 16) mod 16)) (hex_digit (n mod 16)) = Some n.
Proof.
  intros H. unfold unhex4. rewrite !unhex_hex_digit by divlia.
  f_equal. divlia.
Qed.

Lemma parse_chars_plain c r :
  (N_of_ascii c =? 34)%N = false -> (N_of_ascii c =? 92)%N = false ->
  (N_of_ascii c <? 32)%N = false ->
  parse_chars (c :: r) = push [c] (parse_chars r).
Proof. intros H1 H2 H3. cbn [parse_chars]. now rewrite H1, H2, H3. Qed.

Lemma parse_chars_u_step h1 h2 h3 h4 r2 :
  parse_chars ("\"%char :: "u"%char :: h1 :: h2 :: h3 :: h4 :: r2) =
  match unhex4 h1 h2 h3 h4 with
  | Some uni =>
      if ((0xd800 <=? uni) && (uni <=? 0xdbff))%N then
        match r2 with
        | b :: u :: r3 =>
            if ((N_of_ascii b =? 92) && (N_of_ascii u =? 117))%N then
              match r3 with
              | g1 :: g2 :: g3 :: g4 :: r4 =>
                  match unhex4 g1 g2 g3 g4 with
                  | Some uni2 =>
                      if ((0xdc00 <=? uni2) && (uni2 <=? 0xdfff))%N
                      then
                        push
                          (utf8 (0x10000 + (uni - 0xd800) * 1024 +
                                 (uni2 - 0xdc00))%N)
                          (parse_chars r4)
                      else push (utf8 uni) (parse_chars r2)
                  | None => None
                  end
              | _ => None
              end
            else push (utf8 uni) (parse_chars r2)
        | _ => push (utf8 uni) (parse_chars r2)
        end
      else push (utf8 uni) (parse_chars r2)
  | None => None
  end.
Proof. reflexivity. Qed.

Lemma parse_chars_u h1 h2 h3 h4 r2 uni :
  unhex4 h1 h2 h3 h4 = Some uni ->
  ((0xd800 <=? uni) && (uni <=? 0xdbff))%N = false ->
  parse_chars ("\"%char :: "u"%char :: h1 :: h2 :: h3 :: h4 :: r2) =
  push (utf8 uni) (parse_chars r2).
Proof. intros H Hs. now rewrite parse_chars_u_step, H, Hs. Qed.

Lemma parse_chars_pair h1 h2 h3 h4 g1 g2 g3 g4 r4 uni uni2 :
  unhex4 h1 h2 h3 h4 = Some uni ->
  ((0xd800 <=? uni) && (uni <=? 0xdbff))%N = true ->
  unhex4 g1 g2 g3 g4 = Some uni2 ->
  ((0xdc00 <=? uni2) && (uni2 <=? 0xdfff))%N = true ->
  parse_chars ("\"%char :: "u"%char :: h1 :: h2 :: h3 :: h4 ::
               "\"%char :: "u"%char :: g1 :: g2 :: g3 :: g4 :: r4) =
  push (utf8 (0x10000 + (uni - 0xd800) * 1024 + (uni2 - 0xdc00))%N) (parse_chars r4).
Proof.
  intros H Hs H2 Hs2. rewrite parse_chars_u_step, H, Hs. cbv iota.
  change ((N_of_ascii "\"%char =? 92) && (N_of_ascii "u"%char =? 117))%N with true.
  cbv iota. now rewrite H2, Hs2.
Qed.

(** One escaped code point reads back as its UTF-8 bytes. *)
Lemma parse_chars_escape_point c tail :
  scalar_value c = true ->
  parse_chars (escape_point c ++ tail) = push (utf8 c) (parse_chars tail).
Proof.
  intros Hc. unfold escape_point.
  destruct (N.eqb_spec c 34) as [-> | N34]; [reflexivity|].
  destruct (N.eqb_spec c 92) as [-> | N92]; [reflexivity|].
  destruct (N.eqb_spec c 10) as [-> | N10]; [reflexivity|].
  destruct (N.eqb_spec c 13) as [-> | N13]; [reflexivity|].
  destruct (N.eqb_spec c 9) as [-> | N9]; [reflexivity|].
  destruct (N.eqb_spec c 8) as [-> | N8]; [reflexivity|].
  destruct (N.eqb_spec c 12) as [-> | N12]; [reflexivity|].
  unfold scalar_value in Hc.
  destruct ((c <? 32) || (126 <? c))%N eqn:Eout.
  - destruct (N.ltb_spec c 0x10000) as [Hlow | Hhigh].
    + unfold hex4. cbn [app].
      apply (parse_chars_u _ _ _ _ _ c (unhex4_hex4 c Hlow)).
      apply andb_false_iff.
      destruct (N.leb_spec 0xd800 c), (N.leb_spec c 0xdbff); auto.
      exfalso. revert Hc.
      destruct (N.ltb_spec c 0xd800), (N.ltb_spec 0xdfff c); cbn; try lia; discriminate.
    + assert (Hmax : (c < 0x110000)%N).
      { revert Hc. destruct (N.ltb_spec c 0xd800); [lia|].
        destruct (N.ltb_spec 0xdfff c), (N.ltb_spec c 0x110000); cbn;
          try discriminate; lia. }
      unfold hex4. cbn [app].
      rewrite (parse_chars_pair _ _ _ _ _ _ _ _ _
                 (0xd800 + (c - 0x10000) / 1024)%N
                 (0xdc00 + (c - 0x10000) mod 1024)%N).
      * f_equal. f_equal. divlia.
      * apply unhex4_hex4. divlia.
      * apply andb_true_iff. split; apply N.leb_le; divlia.
      * apply unhex4_hex4. divlia.
      * apply andb_true_iff. split; apply N.leb_le; divlia.
  - apply orb_false_iff in Eout as [E1 E2].
    apply N.ltb_ge in E1, E2.
    assert (Hn : N_of_ascii (ascii_of_N c) = c) by (apply N_ascii_embedding; lia).
    cbn [app]. rewrite parse_chars_plain.
    + unfold utf8. destruct (N.ltb_spec c 0x80); [reflexivity | lia].
    + rewrite Hn. now apply N.eqb_neq.
    + rewrite Hn. now apply N.eqb_neq.
    + rewrite Hn. now apply N.ltb_ge.
Qed.

Lemma parse_chars_points pts rest :
  forallb scalar_value pts = true ->
  parse_chars (concat (map escape_point pts) ++ dquote :: rest) =
  Some (encode pts, rest).
Proof.
  induction pts as [|c pts IH]; [reflexivity|].
  cbn [forallb map concat]. intros H. apply andb_prop in H as [Hc Hpts].
  rewrite <- app_assoc, (parse_chars_escape_point _ _ Hc), (IH Hpts).
  cbn [push]. now rewrite encode_cons.
Qed.

(** The text of a str reads back as the str. *)
Lemma parse_chars_quote s rest :
  is_text s = true ->
  parse_chars (escape s ++ dquote :: rest) = Some (s, rest).
Proof.
  intros H. apply andb_prop in H as [Hs He]. apply String.eqb_eq in He.
  unfold escape. rewrite (parse_chars_points _ _ Hs). now rewrite He.
Qed.

Lemma encoded_dict d :
  encoded (VDict d) = true <->
  Forall (fun kv => is_text (fst kv) = true /\ encoded (snd kv) = true) d.
Proof.
  cbn [encoded]. induction d as [|[k v] d IH].
  - split; [constructor | reflexivity].
  - rewrite !andb_true_iff, IH. split.
    + intros [[Hk Hv] Hd]. now constructor.
    + intros H. inversion H as [|? ? [Hk Hv] Hd]; subst. auto.
Qed.

Lemma encoded_list l :
  encoded (VList l) = true <-> Forall (fun v => encoded v = true) l.
Proof.
  cbn [encoded]. induction l as [|v l IH].
  - split; [constructor | reflexivity].
  - rewrite andb_true_iff, IH. split.
    + intros [Hv Hl]. now constructor.
    + intros H. inversion H; subst. auto.
Qed.

Lemma dumps_head v :
  exists c tail, dumps v = c :: tail /\ is_ws c = false /\
    (N_of_ascii c = 34 \/ N_of_ascii c = 123 \/ N_of_ascii c = 91)%N.
Proof.
  destruct v as [s | d | l]; eexists _, _; (split; [reflexivity|]);
    (split; [reflexivity|]); auto.
Qed.

Lemma skip_ws_dumps v tail : skip_ws (dumps v ++ tail) = dumps v ++ tail.
Proof.
  destruct (dumps_head v) as (c & t & -> & Hc & _). cbn. now rewrite Hc.
Qed.

Lemma parse_value_ws fuel s : parse_value fuel (" "%char :: s) = parse_value fuel s.
Proof. destruct fuel; reflexivity. Qed.

Lemma parse_members_ws fuel s acc :
  parse_members fuel (" "%char :: s) acc = parse_members fuel s acc.
Proof. destruct fuel; reflexivity. Qed.

Lemma dict_set_fresh k v (acc : dict) :
  ~ In k (map fst acc) -> dict_set k v acc = acc ++ [(k, v)].
Proof.
  induction acc as [|[k' v'] acc IH]; intros Hk; [reflexivity|].
  cbn [dict_set]. destruct (String.eqb_spec k' k) as [-> | Hne].
  - exfalso. apply Hk. now left.
  - cbn [app]. f_equal. apply IH. intros Hin. apply Hk. now right.
Qed.

Lemma length_members_text d : (1 <= length (members_text d))%nat.
Proof.
  destruct d as [|[k v] d]; [cbn; lia|].
  rewrite members_text_cons. unfold quote. cbn [length app]. lia.
Qed.

Lemma length_items_text l : (1 <= length (items_text l))%nat.
Proof.
  destruct l as [|v l]; [cbn; lia|].
  rewrite items_text_cons. rewrite !length_app.
  destruct (dumps_head v) as (c & t & -> & _). cbn [length]. lia.
Qed.

Lemma skip_ws_nonws c s : is_ws c = false -> skip_ws (c :: s) = c :: s.
Proof. intros H. cbn [skip_ws]. now rewrite H. Qed.

Lemma parse_members_step fuel k tail acc :
  is_text k = true ->
  parse_members (S fuel) (quote k ++ ":"%char :: " "%char :: tail) acc =
  match parse_value fuel tail with
  | Some (v, r3) =>
      match skip_ws r3 with
      | c3 :: r4 =>
          if (N_of_ascii c3 =? 44)%N then parse_members fuel r4 (dict_set k v acc)
          else if (N_of_ascii c3 =? 125)%N then Some (VDict (dict_set k v acc), r4)
          else None
      | [] => None
      end
  | None => None
  end.
Proof.
  intros Hk. unfold quote. cbn [app]. rewrite <- app_assoc. cbn [app].
  cbn [parse_members]. rewrite skip_ws_nonws by reflexivity. cbv iota.
  change (N_of_ascii dquote =? 34)%N with true. cbv iota.
  rewrite (parse_chars_quote _ _ Hk). rewrite skip_ws_nonws by reflexivity. cbv iota.
  change (N_of_ascii ":"%char =? 58)%N with true. cbv iota.
  now rewrite parse_value_ws.
Qed.

Lemma parse_items_step fuel s acc :
  parse_items (S fuel) s acc =
  match parse_value fuel s with
  | Some (v, r1) =>
      match skip_ws r1 with
      | c :: r2 =>
          if (N_of_ascii c =? 44)%N then parse_items fuel r2 (acc ++ [v])
          else if (N_of_ascii c =? 93)%N then Some (VList (acc ++ [v]), r2)
          else None
      | [] => None
      end
  | None => None
  end.
Proof. reflexivity. Qed.

Lemma parse_members_text d :
  Forall (fun kv => decodes (snd kv)) d ->
  Forall (fun kv => wf (snd kv)) d ->
  Forall (fun kv => is_text (fst kv) = true /\ encoded (snd kv) = true) d ->
  forall acc fuel rest,
    d <> [] -> NoDup (map fst acc ++ map fst d) ->
    (length (members_text d) <= fuel)%nat ->
    parse_members fuel (members_text d ++ rest) acc = Some (VDict (acc ++ d), rest).
Proof.
  induction 1 as [|[k v] d Hv Hd IH]; intros Hwf Henc acc fuel rest Hne Hnd Hfuel;
    [congruence|].
  inversion Hwf as [|? ? Hwv Hwd]; subst.
  inversion Henc as [|? ? [Hek Hev] Hed]; subst. cbn [fst snd] in *.
  rewrite members_text_cons in *.
  pose proof (length_members_text d) as Hlen.
  rewrite !length_app in Hfuel. unfold quote in Hfuel. cbn [length] in Hfuel.
  rewrite length_app in Hfuel. cbn [length] in Hfuel.
  destruct fuel as [|fuel]; [lia|].
  rewrite <- !app_assoc. cbn [app]. rewrite (parse_members_step _ _ _ _ Hek).
  rewrite (Hv Hwv Hev) by lia.
  assert (Hk : ~ In k (map fst acc)).
  { cbn [map fst] in Hnd. apply NoDup_app in Hnd as (_ & Hdisj & _).
    intros Hin. apply (Hdisj k); [now apply list_elem_of_In | left]. }
  rewrite (dict_set_fresh k v acc Hk).
  destruct d as [|kv d'].
  - cbn [app members_text]. rewrite skip_ws_nonws by reflexivity. cbv iota.
    change (N_of_ascii "}"%char =? 44)%N with false.
    change (N_of_ascii "}"%char =? 125)%N with true. cbv iota. reflexivity.
  - cbn [app]. rewrite skip_ws_nonws by reflexivity. cbv iota.
    change (N_of_ascii ","%char =? 44)%N with true. cbv iota.
    destruct fuel as [|fuel]; [cbn [length] in Hfuel; lia|].
    rewrite parse_members_ws.
    rewrite IH;
      [now rewrite <- app_assoc | exact Hwd | exact Hed | discriminate |
      | cbn [length app] in Hfuel; lia].
    rewrite map_app. cbn [map fst]. rewrite <- app_assoc. exact Hnd.
Qed.

Lemma parse_items_text l :
  Forall decodes l -> Forall wf l -> Forall (fun v => encoded v = true) l ->
  forall acc fuel rest,
    l <> [] -> (length (items_text l) <= fuel)%nat ->
    parse_items fuel (items_text l ++ rest) acc = Some (VList (acc ++ l), rest).
Proof.
  induction 1 as [|v l Hv Hl IH]; intros Hwf Henc acc fuel rest Hne Hfuel;
    [congruence|].
  inversion Hwf as [|? ? Hwv Hwl]; subst.
  inversion Henc as [|? ? Hev Hel]; subst.
  rewrite items_text_cons in *.
  pose proof (length_items_text l) as Hlen.
  rewrite !length_app in Hfuel.
  destruct fuel as [|fuel]; [lia|].
  rewrite <- !app_assoc. rewrite parse_items_step.
  rewrite (Hv Hwv Hev) by lia.
  destruct l as [|v' l'].
  - cbn [app items_text]. rewrite skip_ws_nonws by reflexivity. cbv iota.
    change (N_of_ascii "]"%char =? 44)%N with false.
    change (N_of_ascii "]"%char =? 93)%N with true. cbv iota. reflexivity.
  - cbn [app]. rewrite skip_ws_nonws by reflexivity. cbv iota.
    change (N_of_ascii ","%char =? 44)%N with true. cbv iota.
    assert (Hws : forall f s a, parse_items f (" "%char :: s) a = parse_items f s a).
    { intros [|f] s a; [reflexivity|]. rewrite !parse_items_step.
      now rewrite parse_value_ws. }
    rewrite Hws.
    rewrite IH;
      [now rewrite <- app_assoc | exact Hwl | exact Hel | discriminate
      | cbn [length app] in Hfuel; lia].
Qed.

(** Decoding the text of a well-formed value gives the value back. *)
Lemma parse_value_dumps v : decodes v.
Proof.
  induction v as [s | d IH | l IH] using value_ind_nested;
    intros Hwf Henc fuel rest Hfuel.
  - destruct fuel as [|fuel]; [cbn in Hfuel; lia|].
    cbn [dumps]. unfold quote. cbn [app parse_value].
    rewrite skip_ws_nonws by reflexivity. cbv iota.
    change (N_of_ascii dquote =? 34)%N with true. cbv iota.
    rewrite <- app_assoc. cbn [app]. now rewrite (parse_chars_quote _ _ Henc).
  - apply wf_dict in Hwf as [Hnd Hwf]. apply encoded_dict in Henc.
    rewrite dumps_dict in *. cbn [length] in Hfuel.
    destruct fuel as [|fuel]; [lia|].
    cbn [app parse_value]. rewrite skip_ws_nonws by reflexivity. cbv iota.
    change (N_of_ascii "{"%char =? 34)%N with false.
    change (N_of_ascii "{"%char =? 123)%N with true. cbv iota.
    destruct d as [|[k v] d].
    + cbn [members_text app]. rewrite skip_ws_nonws by reflexivity. cbv iota.
      change (N_of_ascii "}"%char =? 125)%N with true. cbv iota. reflexivity.
    + rewrite members_text_cons at 1. unfold quote at 1. cbn [app].
      rewrite skip_ws_nonws by reflexivity. cbv iota.
      change (N_of_ascii dquote =? 125)%N with false. cbv iota.
      apply (parse_members_text ((k, v) :: d) IH Hwf Henc []);
        [discriminate | exact Hnd | lia].
  - apply wf_list in Hwf. apply encoded_list in Henc.
    rewrite dumps_list in *. cbn [length] in Hfuel.
    destruct fuel as [|fuel]; [lia|].
    cbn [app parse_value]. rewrite skip_ws_nonws by reflexivity. cbv iota.
    change (N_of_ascii "["%char =? 34)%N with false.
    change (N_of_ascii "["%char =? 123)%N with false.
    change (N_of_ascii "["%char =? 91)%N with true. cbv iota.
    destruct l as [|v l].
    + cbn [items_text app]. rewrite skip_ws_nonws by reflexivity. cbv iota.
      change (N_of_ascii "]"%char =? 93)%N with true. cbv iota. reflexivity.
    + rewrite items_text_cons at 1.
      destruct (dumps_head v) as (c0 & t0 & E0 & Hc0 & Hh). rewrite E0 at 1.
      cbn [app]. rewrite skip_ws_nonws by exact Hc0. cbv iota.
      assert (Hn : (N_of_ascii c0 =? 93)%N = false).
      { destruct Hh as [-> | [-> | ->]]; reflexivity. }
      rewrite Hn. cbv iota.
      apply (parse_items_text (v :: l) IH Hwf Henc []); [discriminate | lia].
Qed.

(** [json.loads(json.dumps(v)) == v] *)
Lemma json_loads_dumps v :
  wf v -> encoded v = true -> json_loads (json_dumps v) = Some v.
Proof.
  intros Hwf Henc. unfold json_loads, json_dumps.
  rewrite list_ascii_of_string_of_list_ascii.
  pose proof (parse_value_dumps v Hwf Henc (S (length (dumps v))) []) as H.
  rewrite app_nil_r in H. rewrite H by lia. reflexivity.
Qed.

(** ** The residual payload of an event *)

Lemma dict_get_filter (q : string -> bool) k (d : dict) :
  dict_get k (List.filter (fun kv => q (fst kv)) d) =
  if q k then dict_get k d else None.
Proof.
  induction d as [|[k' v'] d IH]; [now destruct (q k)|].
  cbn [List.filter fst dict_get].
  destruct (String.eqb_spec k' k) as [-> | Hne].
  - destruct (q k) eqn:Eq; [|exact IH].
    cbn [dict_get]. now rewrite String.eqb_refl.
  - destruct (q k'); [|exact IH].
    cbn [dict_get]. apply String.eqb_neq in Hne. now rewrite Hne.
Qed.

Lemma known_field_spec k :
  existsb (String.eqb k) known_fields = true <-> In k known_fields.
Proof.
  rewrite existsb_exists. split.
  - intros (x & Hin & E). apply String.eqb_eq in E. now subst.
  - intros Hin. exists k. split; [exact Hin | apply String.eqb_refl].
Qed.

Lemma wf_extra_fields data : wf (VDict data) -> wf (VDict (extra_fields data)).
Proof.
  rewrite !wf_dict. intros [Hnd Hwf]. unfold extra_fields. split.
  - clear Hwf. induction data as [|[k v] data IH]; [constructor|].
    cbn [map fst] in Hnd. apply NoDup_cons in Hnd as [Hk Hnd].
    cbn [List.filter]. destruct (negb _); [|now apply IH].
    cbn [map fst]. apply NoDup_cons. split; [|now apply IH].
    intros Hin. apply Hk. apply list_elem_of_In in Hin. apply list_elem_of_In.
    apply in_map_iff in Hin as (kv & <- & Hkv).
    apply List.filter_In in Hkv as [Hkv _]. now apply in_map.
  - clear Hnd. induction Hwf as [|kv data Hkv _ IH]; [constructor|].
    cbn [List.filter]. destruct (negb _); [constructor|]; assumption.
Qed.

Lemma adapt_extra_data extra :
  adapt (PVal (extra_data extra)) =
  Some match extra with
       | [] => SNull
       | _ :: _ => SText (json_dumps (VDict extra))
       end.
Proof. now destruct extra. Qed.

Lemma encoded_extra_fields data :
  encoded (VDict data) = true -> encoded (VDict (extra_fields data)) = true.
Proof.
  rewrite !encoded_dict. unfold extra_fields.
  induction 1 as [|kv data Hkv _ IH]; [constructor|].
  cbn [List.filter]. destruct (negb _); [constructor|]; assumption.
Qed.



(** The example of the specification: the stored payload of an event with
    [custom_field: "value"] decodes to a mapping with that key and value. *)
Example custom_field_payload :
  col "extra_data"
    (List.last (table "historical_events"
                  (working (snd (import_event event_with_custom_field
                                   (init_db ∅))))) []) =
    SText ("{" +:+ DQ +:+ "custom_field" +:+ DQ +:+ ": " +:+
           DQ +:+ "value" +:+ DQ +:+ "}") /\
  json_loads ("{" +:+ DQ +:+ "custom_field" +:+ DQ +:+ ": " +:+
              DQ +:+ "value" +:+ DQ +:+ "}") =
    Some (VDict [("custom_field", VStr "value")]).
Proof. split; vm_compute; reflexivity. Qed.

(** A text outside Latin-1: the light shade U+2591, which CP437 byte 0xB0
    decodes to, is stored as the escape [\u2591] and decoded back to the
    same str; a code point above U+FFFF goes through a surrogate pair. *)
Example shade_payload :
  col "extra_data"
    (List.last (table "historical_events"
                  (working (snd (import_event event_with_shade (init_db ∅))))) []) =
    SText ("{" +:+ DQ +:+ "custom_field" +:+ DQ +:+ ": " +:+
           DQ +:+ "\u2591a" +:+ DQ +:+ "}") /\
  json_loads ("{" +:+ DQ +:+ "custom_field" +:+ DQ +:+ ": " +:+
              DQ +:+ "\u2591a" +:+ DQ +:+ "}") =
    Some (VDict [("custom_field", VStr (encode [0x2591; 0x61]%N))]) /\
  json_dumps (VStr (encode [0x1f600]%N)) = DQ +:+ "\ud83d\ude00" +:+ DQ /\
  json_loads (DQ +:+ "\ud83d\ude00" +:+ DQ) = Some (VStr (encode [0x1f600]%N)).
Proof. repeat split; vm_compute; reflexivity. Qed.

(** ** The theorems at concrete inputs *)

Lemma run_import_aborts_without_files_witness :
  run_import no_elements base_export_only = (Ok false, base_export_only).
Proof.
  apply (run_import_aborts_without_files no_elements base_export_only).
  left. repeat constructor.
Defined.

Lemma run_import_unlinks_temp_files_witness :
  is_Some (temp_dir (snd (sanitize_xml_file "region1-legends_plus.xml"
                            (snd (sanitize_xml_file "region1-legends.xml" both_exports))))
           !! "0") /\
  is_Some (temp_dir (snd (sanitize_xml_file "region1-legends_plus.xml"
                            (snd (sanitize_xml_file "region1-legends.xml" both_exports))))
           !! "1") /\
  temp_dir (snd (run_import no_elements both_exports)) !! "0" = None /\
  temp_dir (snd (run_import no_elements both_exports)) !! "1" = None /\
  temp_dir (snd (run_import no_elements both_exports)) = temp_dir both_exports /\
  fst (run_import no_elements both_exports) =
    fst (import_passes no_elements
           (temp_dir (snd (sanitize_xml_file "region1-legends_plus.xml"
                             (snd (sanitize_xml_file "region1-legends.xml" both_exports))))
              !!! "0")
           (temp_dir (snd (sanitize_xml_file "region1-legends_plus.xml"
                             (snd (sanitize_xml_file "region1-legends.xml" both_exports))))
              !!! "1")
           (init_db (store (snd (sanitize_xml_file "region1-legends_plus.xml"
                                   (snd (sanitize_xml_file "region1-legends.xml"
                                           both_exports))))))).
Proof.
  apply (run_import_unlinks_temp_files no_elements both_exports
           (snd (sanitize_xml_file "region1-legends.xml" both_exports))
           (snd (sanitize_xml_file "region1-legends_plus.xml"
                   (snd (sanitize_xml_file "region1-legends.xml" both_exports))))
           "region1-legends.xml" "region1-legends_plus.xml" "0" "1").
  - vm_compute. reflexivity.
  - vm_compute. reflexivity.
  - vm_compute. reflexivity.
Defined.

(** C8.  The claim fails on a path that follows the creation of both
    files.  [sanitize_xml_file] makes its temporary file with [mkstemp]
    before it opens the export, and run_import calls it twice before the
    [try] block.  With a base directory in which the extended export is
    found but cannot be opened, and no temporary file before the run, the
    second call raises outside the [try]: run_import raises, the [finally]
    block does not run, and both temporary files are still there, the
    sanitized base export and the empty file of the second call. *)
Remark second_sanitize_failure_keeps_files :
  find_xml_files (map fst (base_dir plus_unreadable)) =
    (Some "region1-legends.xml", Some "region1-legends_plus.xml") /\
  temp_dir plus_unreadable = ∅ /\
  fst (run_import no_elements plus_unreadable) = Raise PermissionError /\
  temp_dir (snd (run_import no_elements plus_unreadable)) !! "0" =
    Some (Sanitizer.sanitize_bytes (list_byte_of_string "<a>x</a>")) /\
  temp_dir (snd (run_import no_elements plus_unreadable)) !! "1" = Some [].
Proof.
  split; [vm_compute; reflexivity|].
  split; [reflexivity|].
  split; [vm_compute; reflexivity|].
  split; vm_compute; reflexivity.
Qed.

Lemma import_site_plus_updates_owner_witness :
  exists (civ owner : sqlval) (rows : list row),
    adapt (PVal (dict_get "civ_id" (xml_to_dict site_with_structure))) = Some civ /\
    adapt (PVal (dict_get "cur_owner_id" (xml_to_dict site_with_structure))) =
      Some owner /\
    Forall2
      (fun old new =>
         (forall x, x <> "civ_id" -> x <> "cur_owner_id" -> col x new = col x old) /\
         (col "id" old = SText "42" ->
          col "civ_id" new = civ /\ col "cur_owner_id" new = owner) /\
         (col "id" old <> SText "42" -> new = old))
      (table "sites" (working (Conn {["sites" := [pass1_site_row]]} ∅ ∅)))
      (table "sites"
         (working (snd (import_site_plus (xml_to_dict site_with_structure)
                          (Conn {["sites" := [pass1_site_row]]} ∅ ∅))))) /\
    table "structures"
      (working (snd (import_site_plus (xml_to_dict site_with_structure)
                       (Conn {["sites" := [pass1_site_row]]} ∅ ∅)))) =
    table "structures" (working (Conn {["sites" := [pass1_site_row]]} ∅ ∅)) ++ rows /\
    Forall2
      (fun s r =>
         structure_row "42" (VDict (xml_to_dict s)) = Some r /\
         col "site_id" r = SText "42")
      match occurrences "structures" site_with_structure with
      | _ :: _ :: _ => []
      | _ => List.filter has_children (listed_structure_elements site_with_structure)
      end
      rows.
Proof.
  apply (import_site_plus_updates_owner site_with_structure "42"
           (Conn {["sites" := [pass1_site_row]]} ∅ ∅)
           (snd (import_site_plus (xml_to_dict site_with_structure)
                   (Conn {["sites" := [pass1_site_row]]} ∅ ∅)))).
  - reflexivity.
  - discriminate.
  - vm_compute. reflexivity.
Defined.


(** ** Flattened records are well-formed dicts *)

Lemma element_ind_nested (P : element -> Prop) :
  (forall t x cs, Forall P cs -> P (Element t x cs)) -> forall e, P e.
Proof.
  intros H. fix IH 1. intros [t x cs]. apply H.
  induction cs as [|c cs IHcs]; constructor; [apply IH | exact IHcs].
Qed.

Lemma dict_set_keys k v (d : dict) x :
  In x (map fst (dict_set k v d)) -> x = k \/ In x (map fst d).
Proof.
  induction d as [|[k' v'] d IH]; cbn [dict_set map fst].
  - intros [<- | []]. now left.
  - destruct (String.eqb_spec k' k) as [-> | Hne]; cbn [map fst].
    + intros [<- | Hin]; [now left | right; now right].
    + intros [<- | Hin]; [right; now left|].
      destruct (IH Hin) as [-> | Hd]; [now left | right; now right].
Qed.

Lemma dict_set_wf k v (d : dict) :
  wf (VDict d) -> wf v -> wf (VDict (dict_set k v d)).
Proof.
  rewrite !wf_dict. intros [Hnd Hwf] Hv.
  induction d as [|[k' v'] d IH]; cbn [dict_set].
  - split; [|now repeat constructor].
    cbn [map fst]. apply NoDup_cons. split; [apply not_elem_of_nil | constructor].
  - cbn [map fst] in Hnd. apply NoDup_cons in Hnd as [Hk Hnd].
    inversion Hwf as [|? ? Hv' Hwf']; subst.
    destruct (String.eqb_spec k' k) as [-> | Hne].
    + split; [|now constructor].
      cbn [map fst]. apply NoDup_cons. now split.
    + destruct (IH Hnd Hwf') as [Hnd' Hwf'']. split; [|now constructor].
      cbn [map fst]. apply NoDup_cons. split; [|exact Hnd'].
      intros Hin. apply list_elem_of_In in Hin.
      apply dict_set_keys in Hin as [-> | Hin]; [congruence|].
      apply Hk. now apply list_elem_of_In.
Qed.

Lemma dict_get_wf k (d : dict) v :
  wf (VDict d) -> dict_get k d = Some v -> wf v.
Proof.
  rewrite wf_dict. intros [_ Hwf]. induction Hwf as [|[k' v'] d Hv _ IH]; [discriminate|].
  cbn [dict_get]. destruct (String.eqb k' k); [now intros [= <-] | exact IH].
Qed.

Lemma add_child_wf result tg v :
  wf (VDict result) -> wf v -> wf (VDict (add_child result tg v)).
Proof.
  intros Hr Hv. unfold add_child.
  destruct (dict_get tg result) as [old|] eqn:E; [|now apply dict_set_wf].
  apply dict_set_wf; [exact Hr|].
  apply (dict_get_wf _ _ _ Hr) in E. apply wf_list.
  apply Forall_app. split; [|constructor; [exact Hv | constructor]].
  destruct old as [s | d | l]; [| | now apply wf_list];
    (constructor; [exact E | constructor]).
Qed.

(** Every record the flattener produces satisfies the hypothesis of C6. *)
Lemma xml_to_dict_wf e : wf (VDict (xml_to_dict e)).
Proof.
  induction e as [t x cs IH] using element_ind_nested.
  rewrite xml_to_dict_fold. cbn [children].
  assert (H : forall acc, wf (VDict acc) ->
    wf (VDict (fold_left
                 (fun result child => add_child result (tag child) (child_value child))
                 cs acc))).
  { induction IH as [|c cs Hc _ IHcs]; intros acc Hacc; [exact Hacc|].
    cbn [fold_left]. apply IHcs. apply add_child_wf; [exact Hacc|].
    unfold child_value. destruct (children c); [exact I | exact Hc]. }
  apply H. apply wf_dict. split; constructor.
Qed.

(** ** Strs and their bytes *)

Lemma code_points_1 b r :
  (N_of_ascii b < 0x80)%N -> code_points (b :: r) = N_of_ascii b :: code_points r.
Proof.
  intros H. cbn [code_points]. destruct (N.ltb_spec (N_of_ascii b) 0x80); [reflexivity | lia].
Qed.

Lemma code_points_2 b0 b1 r :
  (0x80 <= N_of_ascii b0 < 0xe0)%N ->
  code_points (b0 :: b1 :: r) =
  ((N_of_ascii b0 - 0xc0) * 64 + (N_of_ascii b1 - 0x80))%N :: code_points r.
Proof.
  intros H. cbn [code_points].
  destruct (N.ltb_spec (N_of_ascii b0) 0x80); [lia|].
  destruct (N.ltb_spec (N_of_ascii b0) 0xe0); [reflexivity | lia].
Qed.

Lemma code_points_3 b0 b1 b2 r :
  (0xe0 <= N_of_ascii b0 < 0xf0)%N ->
  code_points (b0 :: b1 :: b2 :: r) =
  ((N_of_ascii b0 - 0xe0) * 4096 + (N_of_ascii b1 - 0x80) * 64 +
   (N_of_ascii b2 - 0x80))%N :: code_points r.
Proof.
  intros H. cbn [code_points].
  destruct (N.ltb_spec (N_of_ascii b0) 0x80); [lia|].
  destruct (N.ltb_spec (N_of_ascii b0) 0xe0); [lia|].
  destruct (N.ltb_spec (N_of_ascii b0) 0xf0); [reflexivity | lia].
Qed.

Lemma code_points_4 b0 b1 b2 b3 r :
  (0xf0 <= N_of_ascii b0)%N ->
  code_points (b0 :: b1 :: b2 :: b3 :: r) =
  ((N_of_ascii b0 - 0xf0) * 262144 + (N_of_ascii b1 - 0x80) * 4096 +
   (N_of_ascii b2 - 0x80) * 64 + (N_of_ascii b3 - 0x80))%N :: code_points r.
Proof.
  intros H. cbn [code_points].
  destruct (N.ltb_spec (N_of_ascii b0) 0x80); [lia|].
  destruct (N.ltb_spec (N_of_ascii b0) 0xe0); [lia|].
  destruct (N.ltb_spec (N_of_ascii b0) 0xf0); [lia | reflexivity].
Qed.

(** The bytes of a code point read back as the code point. *)
Lemma code_points_utf8 c rest :
  (c < 0x110000)%N -> code_points (utf8 c ++ rest) = c :: code_points rest.
Proof.
  intros Hc. unfold utf8.
  destruct (N.ltb_spec c 0x80) as [H1 | H1].
  - cbn [app]. rewrite code_points_1; rewrite N_ascii_embedding by lia; [reflexivity | lia].
  - destruct (N.ltb_spec c 0x800) as [H2 | H2].
    + cbn [app]. rewrite code_points_2; rewrite !N_ascii_embedding by divlia;
        [f_equal; divlia | divlia].
    + destruct (N.ltb_spec c 0x10000) as [H3 | H3].
      * cbn [app]. rewrite code_points_3; rewrite !N_ascii_embedding by divlia;
          [f_equal; divlia | divlia].
      * cbn [app]. rewrite code_points_4; rewrite !N_ascii_embedding by divlia;
          [f_equal; divlia | divlia].
Qed.

Lemma scalar_value_bound c : scalar_value c = true -> (c < 0x110000)%N.
Proof.
  unfold scalar_value. destruct (N.ltb_spec c 0xd800); [lia|].
  destruct (N.ltb_spec 0xdfff c), (N.ltb_spec c 0x110000); cbn;
    try discriminate; lia.
Qed.

(** Every sequence of scalar values has its str: the bytes of the
    encoding are a text, and they read back as the sequence. *)
Lemma is_text_encode pts :
  forallb scalar_value pts = true ->
  points (encode pts) = pts /\ is_text (encode pts) = true.
Proof.
  intros H.
  assert (Hp : points (encode pts) = pts).
  { unfold points, encode. rewrite list_ascii_of_string_of_list_ascii.
    induction pts as [|c pts IH]; [reflexivity|].
    cbn [forallb] in H. apply andb_prop in H as [Hc Hpts].
    cbn [map concat]. rewrite code_points_utf8 by now apply scalar_value_bound.
    now rewrite IH. }
  split; [exact Hp|].
  unfold is_text. rewrite Hp, H. cbn [andb]. apply String.eqb_refl.
Qed.

(** ** Flattened records hold strs *)

Lemma dict_set_encoded k v (d : dict) :
  is_text k = true -> encoded v = true ->
  encoded (VDict d) = true -> encoded (VDict (dict_set k v d)) = true.
Proof.
  rewrite !encoded_dict. intros Hk Hv.
  induction 1 as [|[k' v'] d Hkv Hd IH]; cbn [dict_set].
  - apply List.Forall_cons; [now split | apply List.Forall_nil].
  - destruct (String.eqb k' k); apply List.Forall_cons;
      [now split | exact Hd | exact Hkv | exact IH].
Qed.

Lemma dict_get_encoded k (d : dict) v :
  encoded (VDict d) = true -> dict_get k d = Some v -> encoded v = true.
Proof.
  rewrite encoded_dict. induction 1 as [|[k' v'] d [_ Hv] _ IH]; [discriminate|].
  cbn [dict_get]. destruct (String.eqb k' k); [now intros [= <-] | exact IH].
Qed.

Lemma add_child_encoded result tg v :
  is_text tg = true -> encoded v = true ->
  encoded (VDict result) = true -> encoded (VDict (add_child result tg v)) = true.
Proof.
  intros Ht Hv Hr. unfold add_child.
  destruct (dict_get tg result) as [old|] eqn:E; [|now apply dict_set_encoded].
  apply dict_set_encoded; [exact Ht | | exact Hr].
  apply (dict_get_encoded _ _ _ Hr) in E. apply encoded_list.
  apply Forall_app. split;
    [|apply List.Forall_cons; [exact Hv | apply List.Forall_nil]].
  destruct old as [s | d | l]; [| | now apply encoded_list];
    (apply List.Forall_cons; [exact E | apply List.Forall_nil]).
Qed.

(** The record of an element that holds strs holds strs: with
    [xml_to_dict_wf], every record the flattener makes of a parsed
    document satisfies the hypotheses of C6. *)
Lemma xml_to_dict_encoded e :
  element_text e = true -> encoded (VDict (xml_to_dict e)) = true.
Proof.
  induction e as [t x cs IH] using element_ind_nested.
  rewrite xml_to_dict_fold. cbn [children element_text].
  intros H. apply andb_prop in H as [_ Hcs].
  assert (G : forall acc, encoded (VDict acc) = true ->
    encoded (VDict (fold_left
                      (fun result child =>
                         add_child result (tag child) (child_value child))
                      cs acc)) = true).
  { induction IH as [|c cs Hc _ IHcs]; intros acc Hacc; [exact Hacc|].
    apply andb_prop in Hcs as [Helem Hrest].
    cbn [fold_left]. apply (IHcs Hrest).
    assert (Htag : is_text (tag c) = true /\
                   is_text (text_or_empty c) = true).
    { destruct c as [tc xc csc]. cbn [element_text] in Helem.
      apply andb_prop in Helem as [Htx _]. apply andb_prop in Htx as [Htc Hxc].
      split; [exact Htc|]. unfold text_or_empty. cbn [text].
      destruct xc; [exact Hxc | reflexivity]. }
    destruct Htag as [Htag Htext].
    apply add_child_encoded; [exact Htag | | exact Hacc].
    unfold child_value. destruct (children c); [exact Htext | now apply Hc]. }
  apply G. reflexivity.
Qed.

(* ===================================================================== *)
(** * Further properties of build.py *)
(* ===================================================================== *)

(** ** What every callback does and never does *)

Lemma script_for_each_in W k {A} (l : list A) (body : A -> M unit) :
  (forall x, In x l -> script W k unit (body x)) ->
  script W k unit (for_each l body).
Proof.
  induction l as [|x l IH]; intros H; cbn [for_each].
  - apply script_ret.
  - apply script_bind; [apply H; now left | intros _].
    apply IH. intros y Hy. apply H. now right.
Qed.

Lemma script_for_each W k {A} (l : list A) (body : A -> M unit) :
  (forall x, script W k unit (body x)) -> script W k unit (for_each l body).
Proof. intros H. apply script_for_each_in. intros x _. apply H. Qed.

Lemma script_insert_loop W k T cols (params : dict -> list param) name l :
  In T W ->
  script W k unit
    (for_each l
       (fun v => match v with
                 | VDict d => execute (InsertInto T cols) (params d) ;; incr name
                 | _ => ret tt
                 end)).
Proof.
  intros HT. apply script_for_each. intros [s | d | l0]; try apply script_ret.
  apply script_bind; [now apply script_execute | intros _; apply script_incr].
Qed.

Lemma script_callback k i data : script (written i) k unit (callback i data).
Proof.
  destruct i; cbn [callback written];
    try (apply script_execute; cbn; tauto).
  - unfold import_site_plus. destruct (truthy _); [|apply script_ret].
    apply script_bind; [apply script_execute; cbn; tauto | intros _].
    destruct (default _ _); try apply script_ret.
    apply script_insert_loop. cbn; tauto.
  - apply script_bind; [apply script_execute; cbn; tauto | intros _].
    apply script_bind; [apply script_insert_loop; cbn; tauto | intros _].
    apply script_insert_loop. cbn; tauto.
  - apply script_bind; [apply script_execute; cbn; tauto | intros _].
    apply script_bind; [apply script_insert_loop; cbn; tauto | intros _].
    apply script_insert_loop. cbn; tauto.
  - apply script_bind; [apply script_execute; cbn; tauto | intros _].
    apply script_bind; [|intros _; apply script_insert_loop; cbn; tauto].
    apply script_for_each. intros style.
    apply script_bind; [apply script_execute; cbn; tauto | intros _; apply script_incr].
Qed.

Lemma script_weaken W W' k A (m : M A) :
  (forall t, In t W -> In t W') -> script W k A m -> script W' k A m.
Proof.
  intros Hsub H. induction H; constructor; auto.
Qed.

Lemma script_no_commit W A (m : M A) :
  script W false A m -> forall c, committed (snd (m c)) = committed c.
Proof.
  induction 1 as [A a | A e | s ps Hs | name | name | Hk | A B m f Hm IHm Hf IHf];
    intros c; try reflexivity.
  - unfold execute. now destruct (adapt_all ps).
  - discriminate Hk.
  - unfold bind. specialize (IHm c). destruct (m c) as [[a|e] c1]; cbn [snd] in *.
    + now rewrite IHf.
    + exact IHm.
Qed.

Lemma script_frame W k A (m : M A) (T : string) :
  script W k A m -> ~ In T W ->
  forall c, table T (working (snd (m c))) = table T (working c).
Proof.
  intros H HT.
  induction H as [A a | A e | s ps Hs | name | name | Hk | A B m f Hm IHm Hf IHf];
    intros c; try reflexivity.
  - unfold execute. destruct (adapt_all ps) as [vals|]; [|reflexivity].
    cbn [snd working].
    assert (Hne : T <> statement_table s) by (intros ->; contradiction).
    destruct s; cbn [run_statement statement_table] in *;
      rewrite table_insert; now rewrite decide_False.
  - unfold bind. specialize (IHm c). destruct (m c) as [[a|e] c1]; cbn [snd] in *.
    + now rewrite IHf.
    + exact IHm.
Qed.

Lemma run_statement_same s vals T (db1 db2 : database) :
  table T db1 = table T db2 ->
  table T (run_statement s vals db1) = table T (run_statement s vals db2).
Proof.
  intros H. destruct s; cbn [run_statement]; rewrite !table_insert;
    destruct (decide (T = t)) as [-> |];
    first [assumption | reflexivity | now rewrite H].
Qed.

Lemma script_same W k A (m : M A) (T : string) :
  script W k A m ->
  forall c1 c2, same_table T c1 c2 ->
    fst (m c1) = fst (m c2) /\ same_table T (snd (m c1)) (snd (m c2)).
Proof.
  induction 1 as [A a | A e | s ps Hs | name | name | Hk | A B m f Hm IHm Hf IHf];
    intros c1 c2 [Hw Hc]; try (split; [reflexivity | now split]).
  - unfold execute. destruct (adapt_all ps) as [vals|]; (split; [reflexivity|]);
      split; cbn [snd working committed]; try assumption.
    now apply run_statement_same.
  - unfold bind. destruct (IHm c1 c2 (conj Hw Hc)) as [Hr Hs].
    destruct (m c1) as [[a1|e1] c1'], (m c2) as [[a2|e2] c2']; cbn [fst snd] in *;
      try discriminate Hr.
    + injection Hr as ->. now apply IHf.
    + injection Hr as ->. now split.
Qed.

(** X1.  No callback of run_import commits: whatever the record and
    whether the callback returns or raises, the rows of the last commit are
    the ones it found. *)
Theorem callback_never_commits (i : importer) (data : dict) (c : conn) :
  committed (snd (callback i data c)) = committed c.
Proof. apply (script_no_commit (written i)). apply script_callback. Qed.

(** X2.  A callback writes the tables its statements name and no other:
    every other table holds the same rows after the call, returned or
    raised. *)
Theorem callback_writes_own_tables (i : importer) (data : dict) (c : conn)
    (T : string) :
  ~ In T (written i) ->
  table T (working (snd (callback i data c))) = table T (working c).
Proof.
  intros HT. apply (script_frame (written i) false); [apply script_callback | exact HT].
Qed.

Lemma callback_writes_own_tables_witness :
  table "sites"
    (working (snd (callback ImportEntity (xml_to_dict site_element)
                     (Conn {["sites" := [pass1_site_row]]} ∅ ∅)))) =
  table "sites" (working (Conn {["sites" := [pass1_site_row]]} ∅ ∅)).
Proof.
  apply (callback_writes_own_tables ImportEntity (xml_to_dict site_element)
           (Conn {["sites" := [pass1_site_row]]} ∅ ∅) "sites").
  cbn. intros [H | [H | [H | []]]]; discriminate H.
Defined.

(** ** Passes, the clearing step and the whole run *)

Lemma clear_loop (l : list string) (c : conn) :
  exists db,
    for_each l (fun t => execute (DeleteFrom t) []) c =
      (Ok tt, Conn db (committed c) (counters c)) /\
    forall T, table T db = if bool_decide (T ∈ l) then [] else table T (working c).
Proof.
  revert c. induction l as [|t l IH]; intros c.
  - exists (working c). split; [now destruct c|].
    intros T. rewrite bool_decide_eq_false_2; [reflexivity | apply not_elem_of_nil].
  - cbn [for_each]. unfold bind, execute at 1. cbn [adapt_all run_statement].
    destruct (IH (Conn (<[t:=[]]> (working c)) (committed c) (counters c)))
      as (db & Hrun & Htab).
    exists db. split; [exact Hrun|]. intros T. rewrite Htab. cbn [working].
    rewrite table_insert.
    destruct (bool_decide_reflect (T ∈ l)) as [Hin | Hnin].
    + rewrite bool_decide_eq_true_2; [reflexivity | apply elem_of_cons; now right].
    + destruct (decide (T = t)) as [-> | Hne].
      * rewrite bool_decide_eq_true_2; [reflexivity | apply elem_of_cons; now left].
      * rewrite bool_decide_eq_false_2; [reflexivity|].
        intros Hin. apply elem_of_cons in Hin as [E | Hin]; [now apply Hne | contradiction].
Qed.

Lemma clear_tables_run (c : conn) :
  exists c',
    clear_tables c = (Ok tt, c') /\
    committed c' = working c' /\
    counters c' = counters c /\
    forall T, table T (working c') =
              if bool_decide (T ∈ tables) then [] else table T (working c).
Proof.
  unfold clear_tables, bind.
  destruct (clear_loop tables c) as (db & -> & Htab). cbn [commit working].
  eexists. split; [reflexivity|]. repeat split. exact Htab.
Qed.

(** X4.  [clear_tables] never raises; it leaves each of the twenty listed
    tables empty, every other table as it was, the counters as they were,
    and it commits: the rows of the last commit are then those of the
    connection. *)
Theorem clear_tables_empties (c : conn) :
  exists c',
    clear_tables c = (Ok tt, c') /\
    committed c' = working c' /\
    counters c' = counters c /\
    forall T, table T (working c') =
              if bool_decide (T ∈ tables) then [] else table T (working c).
Proof. exact (clear_tables_run c). Qed.

Section Passes.

Variable iterparse : list byte -> list string -> list element * bool.

Lemma script_stream_loop W k elems callback count :
  (forall data, script W k unit (callback data)) ->
  script W k nat (stream_loop elems callback count).
Proof.
  intros H. revert count. induction elems as [|e elems IH]; intros count;
    cbn [stream_loop].
  - apply script_ret.
  - apply script_bind; [apply H | intros _; apply IH].
Qed.

Lemma script_stream_elements W k file tag callback :
  (forall data, script W k unit (callback data)) ->
  script W k nat (stream_elements iterparse file tag callback).
Proof.
  intros H. unfold stream_elements. destruct (iterparse file [tag]) as [elems complete].
  apply script_bind; [now apply script_stream_loop | intros count].
  destruct complete; [apply script_ret | apply script_raise].
Qed.

Lemma script_pass W file tag callback :
  (forall data, script W true unit (callback data)) ->
  script W true unit (pass iterparse file tag callback).
Proof.
  intros H. apply script_bind; [now apply script_stream_elements | intros _].
  now apply script_commit.
Qed.

(** X3.  A pass commits all or nothing: when it returns, the document was
    parsed to its end without a syntax error and every row of the
    connection is committed; when it raises (a syntax error at any point of
    the document, or a callback that raised), the committed rows are the
    ones from before the pass. *)
Theorem pass_commits_all_or_nothing (i : importer) (file : list byte)
    (tag : string) (c : conn) :
  match pass iterparse file tag (callback i) c with
  | (Ok _, c') =>
      snd (iterparse file [tag]) = true /\ committed c' = working c'
  | (Raise _, c') => committed c' = committed c
  end.
Proof.
  unfold pass, bind.
  pose proof (script_no_commit (written i) nat
                (stream_elements iterparse file tag (callback i))
                (script_stream_elements _ _ file tag _
                   (fun data => script_callback false i data)) c) as Hc.
  destruct (stream_elements iterparse file tag (callback i) c) as [[n|e] c1] eqn:E;
    cbn [snd] in Hc; [|exact Hc].
  cbn [commit committed working]. split; [|reflexivity].
  unfold stream_elements, bind in E.
  destruct (iterparse file [tag]) as [elems complete].
  destruct (stream_loop elems (callback i) 0 c) as [[m|e] c2]; [|discriminate E].
  now destruct complete.
Qed.

Lemma written_in_tables (i : importer) (t : string) :
  In t (written i) -> In t (List.tl tables).
Proof.
  destruct i; cbn [written]; intros H;
    repeat (destruct H as [<- | H]; [cbn; intuition auto|]); contradiction.
Qed.

Lemma script_world_info W k file :
  script W k _ (get_world_info iterparse file).
Proof.
  unfold get_world_info. destruct (iterparse file _) as [elems complete].
  generalize (@None string). induction elems as [|e elems IH]; intros name;
    cbn [world_info_loop].
  - destruct complete; [apply script_ret | apply script_raise].
  - destruct (_ && _); [apply IH|].
    destruct (String.eqb _ _); [apply script_ret | apply IH].
Qed.

Lemma world_info_pure file (c c0 : conn) :
  get_world_info iterparse file c = (fst (get_world_info iterparse file c0), c).
Proof.
  unfold get_world_info. destruct (iterparse file _) as [elems complete].
  generalize (@None string). induction elems as [|e elems IH]; intros name;
    cbn [world_info_loop].
  - now destruct complete.
  - destruct (_ && _); [apply IH|].
    destruct (String.eqb _ _); [reflexivity | apply IH].
Qed.

Ltac script_pass_tac :=
  apply script_pass; intros ?;
  first
    [ apply (script_weaken _ _ _ _ _ (written_in_tables ImportRegion));
      exact (script_callback true ImportRegion _)
    | apply (script_weaken _ _ _ _ _ (written_in_tables ImportUnderground));
      exact (script_callback true ImportUnderground _)
    | apply (script_weaken _ _ _ _ _ (written_in_tables ImportSite));
      exact (script_callback true ImportSite _)
    | apply (script_weaken _ _ _ _ _ (written_in_tables ImportArtifact));
      exact (script_callback true ImportArtifact _)
    | apply (script_weaken _ _ _ _ _ (written_in_tables ImportLandmass));
      exact (script_callback true ImportLandmass _)
    | apply (script_weaken _ _ _ _ _ (written_in_tables ImportPeak));
      exact (script_callback true ImportPeak _)
    | apply (script_weaken _ _ _ _ _ (written_in_tables ImportSitePlus));
      exact (script_callback true ImportSitePlus _)
    | apply (script_weaken _ _ _ _ _ (written_in_tables ImportEntity));
      exact (script_callback true ImportEntity _)
    | apply (script_weaken _ _ _ _ _ (written_in_tables ImportHf));
      exact (script_callback true ImportHf _)
    | apply (script_weaken _ _ _ _ _ (written_in_tables ImportRel));
      exact (script_callback true ImportRel _)
    | apply (script_weaken _ _ _ _ _ (written_in_tables ImportEvent));
      exact (script_callback true ImportEvent _)
    | apply (script_weaken _ _ _ _ _ (written_in_tables ImportContent));
      exact (script_callback true ImportContent _) ].

(** The passes that follow the insertion of the world row. *)
Lemma script_entity_passes legends_clean legends_plus_clean :
  script (List.tl tables) true bool
    (pass iterparse legends_clean "region" import_region ;;
     pass iterparse legends_clean "underground_region" import_underground ;;
     pass iterparse legends_clean "site" import_site ;;
     pass iterparse legends_clean "artifact" import_artifact ;;
     pass iterparse legends_plus_clean "landmass" import_landmass ;;
     pass iterparse legends_plus_clean "mountain_peak" import_peak ;;
     reset "structure_count" ;;
     pass iterparse legends_plus_clean "site" import_site_plus ;;
     reset "pos_count" ;; reset "assign_count" ;;
     pass iterparse legends_plus_clean "entity" import_entity ;;
     reset "entity_link_count" ;; reset "site_link_count" ;;
     pass iterparse legends_clean "historical_figure" import_hf ;;
     pass iterparse legends_plus_clean "historical_event_relationship" import_rel ;;
     pass iterparse legends_plus_clean "historical_event" import_event ;;
     reset "style_count" ;; reset "ref_count" ;;
     pass iterparse legends_plus_clean "written_content" import_content ;;
     ret true).
Proof.
  repeat (apply script_bind;
          [first [apply script_reset | script_pass_tac] | intros _]).
  apply script_ret.
Qed.

Lemma entity_passes_settle legends_clean legends_plus_clean c b c' :
  (pass iterparse legends_clean "region" import_region ;;
   pass iterparse legends_clean "underground_region" import_underground ;;
   pass iterparse legends_clean "site" import_site ;;
   pass iterparse legends_clean "artifact" import_artifact ;;
   pass iterparse legends_plus_clean "landmass" import_landmass ;;
   pass iterparse legends_plus_clean "mountain_peak" import_peak ;;
   reset "structure_count" ;;
   pass iterparse legends_plus_clean "site" import_site_plus ;;
   reset "pos_count" ;; reset "assign_count" ;;
   pass iterparse legends_plus_clean "entity" import_entity ;;
   reset "entity_link_count" ;; reset "site_link_count" ;;
   pass iterparse legends_clean "historical_figure" import_hf ;;
   pass iterparse legends_plus_clean "historical_event_relationship" import_rel ;;
   pass iterparse legends_plus_clean "historical_event" import_event ;;
   reset "style_count" ;; reset "ref_count" ;;
   pass iterparse legends_plus_clean "written_content" import_content ;;
   ret true) c = (Ok b, c') ->
  b = true /\ committed c' = working c'.
Proof.
  assert (Hbind : forall A (m : M A) (f : A -> M bool),
    (forall a c b c', f a c = (Ok b, c') -> b = true /\ committed c' = working c') ->
    forall c b c', bind m f c = (Ok b, c') -> b = true /\ committed c' = working c').
  { intros A m f Hf c0 b0 c0'. unfold bind.
    destruct (m c0) as [[a|e] c1]; [apply Hf | discriminate]. }
  revert c b c'.
  do 18 (apply Hbind; intros _).
  intros c b c'. unfold pass, bind.
  destruct (stream_elements _ _ _ _ c) as [[n|e] c1]; [|discriminate].
  cbn [commit ret]. now intros [= <- <-].
Qed.

(** X6.  When the [try] block of run_import returns, it returns [True],
    everything is committed, and the [world] table holds exactly one row:
    the name and the alternative name [get_world_info] read from the
    extended export (NULL for the one it did not find), whatever the table
    held before. *)
Theorem import_passes_world_row (legends_clean legends_plus_clean : list byte)
    (c c' : conn) (b : bool) :
  import_passes iterparse legends_clean legends_plus_clean c = (Ok b, c') ->
  b = true /\
  committed c' = working c' /\
  exists name altname : option string,
    fst (get_world_info iterparse legends_plus_clean c) = Ok (name, altname) /\
    table "world" (committed c') =
      [[("name", from_option SText SNull name);
        ("altname", from_option SText SNull altname)]].
Proof.
  unfold import_passes. unfold bind at 1.
  destruct (clear_tables_run c) as (c1 & -> & _ & _ & Htab).
  unfold bind at 1. rewrite (world_info_pure legends_plus_clean c1 c).
  destruct (fst (get_world_info iterparse legends_plus_clean c))
    as [[name altname]|e]; [|discriminate].
  unfold bind at 1.
  rewrite (execute_ok _ _ [from_option SText SNull name; from_option SText SNull altname])
    by now destruct name, altname.
  unfold bind at 1. cbn [commit working committed counters run_statement fst snd].
  set (c3 := Conn _ _ _). intros H.
  pose proof (script_frame _ _ _ _ "world"
                (script_entity_passes legends_clean legends_plus_clean)) as Hframe.
  specialize (Hframe ltac:(cbn; intuition discriminate) c3). rewrite H in Hframe.
  apply entity_passes_settle in H as [-> Hsettled].
  split; [reflexivity|]. split; [exact Hsettled|].
  exists name, altname. split; [reflexivity|].
  rewrite Hsettled. cbn [snd] in Hframe. rewrite Hframe. unfold c3. cbn [working].
  rewrite table_insert, decide_True by reflexivity.
  rewrite Htab. now rewrite bool_decide_eq_true_2 by (apply elem_of_cons; now left).
Qed.

Lemma import_passes_same legends_clean legends_plus_clean (c1 c2 : conn) (T : string) :
  T ∈ tables ->
  fst (import_passes iterparse legends_clean legends_plus_clean c1) =
  fst (import_passes iterparse legends_clean legends_plus_clean c2) /\
  table T (committed (snd (import_passes iterparse legends_clean legends_plus_clean c1))) =
  table T (committed (snd (import_passes iterparse legends_clean legends_plus_clean c2))).
Proof.
  intros HT. unfold import_passes.
  destruct (clear_tables_run c1) as (d1 & E1 & Hs1 & _ & Ht1).
  destruct (clear_tables_run c2) as (d2 & E2 & Hs2 & _ & Ht2).
  rewrite (bind_ok _ _ _ _ _ E1), (bind_ok _ _ _ _ _ E2).
  assert (Hsame : same_table T d1 d2).
  { unfold same_table. rewrite Hs1, Hs2, Ht1, Ht2.
    rewrite (bool_decide_eq_true_2 _ HT). split; reflexivity. }
  match goal with
  | |- fst (?m d1) = _ /\ _ =>
      assert (Hscript : script tables true bool m)
  end.
  { apply script_bind; [apply script_world_info | intros info].
    apply script_bind; [apply script_execute; now left | intros _].
    apply script_bind; [now apply script_commit | intros _].
    eapply script_weaken; [|apply script_entity_passes].
    intros t Ht. now right. }
  destruct (script_same _ _ _ _ T Hscript d1 d2 Hsame) as [Hr [_ Hc]].
  split; [exact Hr | exact Hc].
Qed.

(** X5.  A run that finds and opens both exports does not depend on what
    the database held: from two stores with the same directories,
    run_import returns or raises the same, and each of the twenty tables of
    [clear_tables] holds the same rows afterwards.  Rows of an earlier
    import never survive into the result, also when the run fails after the
    clearing step. *)
Theorem run_import_forgets_store
    (dir : list (string * option (list byte))) (temp : gmap string (list byte))
    (store1 store2 : database) (LEGENDS_FILE LEGENDS_PLUS_FILE : string)
    (T : string) :
  find_xml_files (map fst dir) = (Some LEGENDS_FILE, Some LEGENDS_PLUS_FILE) ->
  is_Some (open_rb LEGENDS_FILE dir) ->
  is_Some (open_rb LEGENDS_PLUS_FILE dir) ->
  T ∈ tables ->
  fst (run_import iterparse (World dir temp store1)) =
  fst (run_import iterparse (World dir temp store2)) /\
  table T (store (snd (run_import iterparse (World dir temp store1)))) =
  table T (store (snd (run_import iterparse (World dir temp store2)))).
Proof.
  intros Hfind [in1 H1] [in2 H2] HT. unfold run_import. cbn [base_dir].
  rewrite Hfind. unfold sanitize_xml_file. cbn [base_dir temp_dir store].
  rewrite H1. cbn [base_dir temp_dir store]. rewrite H2. cbn [base_dir temp_dir store].
  set (temp2 := <[_ := _]> (<[_ := _]> temp)).
  set (p1 := mkstemp temp). set (p2 := mkstemp _).
  destruct (import_passes_same (temp2 !!! p1) (temp2 !!! p2)
              (init_db store1) (init_db store2) T HT) as [Hr Hc].
  destruct (import_passes iterparse _ _ (init_db store1)) as [r1 c1].
  destruct (import_passes iterparse _ _ (init_db store2)) as [r2 c2].
  cbn [fst snd] in Hr, Hc. subst r2.
  unfold unlink. cbn [temp_dir base_dir store].
  destruct (temp2 !! p1); [|now split].
  cbn [temp_dir base_dir store].
  destruct (delete p1 temp2 !! p2); now split.
Qed.

End Passes.

Lemma run_import_forgets_store_witness :
  fst (run_import no_elements
         (World (base_dir both_exports) ∅ {["sites" := [pass1_site_row]]})) =
  fst (run_import no_elements (World (base_dir both_exports) ∅ ∅)) /\
  table "sites"
    (store (snd (run_import no_elements
                   (World (base_dir both_exports) ∅
                          {["sites" := [pass1_site_row]]})))) =
  table "sites"
    (store (snd (run_import no_elements (World (base_dir both_exports) ∅ ∅)))).
Proof.
  apply (run_import_forgets_store no_elements (base_dir both_exports) ∅
           {["sites" := [pass1_site_row]]} ∅
           "region1-legends.xml" "region1-legends_plus.xml" "sites").
  - vm_compute. reflexivity.
  - vm_compute. now eexists.
  - vm_compute. now eexists.
  - apply (bool_decide_unpack _). vm_compute. exact I.
Defined.

Lemma import_passes_world_row_witness :
  true = true /\
  committed (snd (import_passes small_iterparse small_legends small_legends_plus
                    (init_db ∅))) =
  working (snd (import_passes small_iterparse small_legends small_legends_plus
                  (init_db ∅))) /\
  exists name altname : option string,
    fst (get_world_info small_iterparse small_legends_plus (init_db ∅)) =
      Ok (name, altname) /\
    table "world"
      (committed (snd (import_passes small_iterparse small_legends small_legends_plus
                         (init_db ∅)))) =
      [[("name", from_option SText SNull name);
        ("altname", from_option SText SNull altname)]].
Proof.
  apply (import_passes_world_row small_iterparse small_legends small_legends_plus
           (init_db ∅)
           (snd (import_passes small_iterparse small_legends small_legends_plus
                   (init_db ∅)))
           true).
  vm_compute. reflexivity.
Defined.

(** ** More on the flattener *)

Lemma add_child_keys result tg v :
  keys (add_child result tg v) =
  if existsb (String.eqb tg) (keys result) then keys result
  else keys result ++ [tg].
Proof.
  assert (Hset : forall x d,
    keys (dict_set tg x d) =
    if existsb (String.eqb tg) (keys d) then keys d else keys d ++ [tg]).
  { intros x d. induction d as [|[k' v'] d IH]; [reflexivity|].
    cbn [dict_set keys map fst existsb].
    rewrite (String.eqb_sym tg k').
    destruct (String.eqb_spec k' tg) as [-> | Hne]; [reflexivity|].
    cbn [orb map fst]. unfold keys in IH. rewrite IH.
    now destruct (existsb (String.eqb tg) (map fst d)). }
  assert (Hmem : existsb (String.eqb tg) (keys result) =
                 match dict_get tg result with Some _ => true | None => false end).
  { induction result as [|[k' v'] d IH]; [reflexivity|].
    cbn [keys map fst existsb dict_get]. rewrite (String.eqb_sym tg k').
    destruct (String.eqb k' tg); [reflexivity | exact IH]. }
  unfold add_child. rewrite Hmem.
  destruct (dict_get tg result); rewrite Hset, Hmem;
    destruct (dict_get tg result); try reflexivity; congruence.
Qed.

Lemma flatten_keys cs (acc : dict) :
  keys (fold_left
          (fun result child => add_child result (tag child) (child_value child))
          cs acc) =
  fold_left
    (fun seen t => if existsb (String.eqb t) seen then seen else seen ++ [t])
    (map tag cs) (keys acc).
Proof.
  revert acc. induction cs as [|c cs IH]; intros acc; [reflexivity|].
  cbn [fold_left map]. rewrite IH. now rewrite add_child_keys.
Qed.

(** X7.  The keys of a flattened record are the distinct tags of the
    children, in the order in which each tag first occurs in the document;
    a repeated tag keeps the place of its first occurrence. *)
Theorem xml_to_dict_key_order (e : element) :
  keys (xml_to_dict e) = first_occurrences (map tag (children e)).
Proof. rewrite xml_to_dict_fold. apply flatten_keys. Qed.

Lemma flat_dict d :
  flat (VDict d) <-> d <> [] /\ Forall (fun kv => flat (snd kv)) d.
Proof.
  cbn [flat]. split; intros [Hne H]; (split; [exact Hne|]); clear Hne.
  - induction d as [|[k v] d IH]; constructor; [apply H | apply IH, H].
  - induction H as [|[k v] d Hv _ IH]; [exact I | now split].
Qed.

Lemma flat_list l :
  flat (VList l) <->
  (2 <= length l)%nat /\ Forall (fun v => is_list v = false /\ flat v) l.
Proof.
  cbn [flat]. split; intros [Hlen H]; (split; [exact Hlen|]); clear Hlen.
  - induction l as [|v l IH]; constructor; [apply H | apply IH, H].
  - induction H as [|v l Hv _ IH]; [exact I | now split].
Qed.

Lemma dict_set_flat k v (d : dict) :
  flat v -> Forall (fun kv => flat (snd kv)) d ->
  Forall (fun kv => flat (snd kv)) (dict_set k v d).
Proof.
  intros Hv. induction 1 as [|[k' v'] d Hv' Hd IH]; cbn [dict_set].
  - apply List.Forall_cons; [exact Hv | apply List.Forall_nil].
  - destruct (String.eqb k' k); constructor; assumption.
Qed.

Lemma dict_get_flat k (d : dict) v :
  Forall (fun kv => flat (snd kv)) d -> dict_get k d = Some v -> flat v.
Proof.
  induction 1 as [|[k' v'] d Hv _ IH]; [discriminate|].
  cbn [dict_get]. destruct (String.eqb k' k); [now intros [= <-] | exact IH].
Qed.

Lemma add_child_flat result tg v :
  is_list v = false -> flat v ->
  Forall (fun kv => flat (snd kv)) result ->
  Forall (fun kv => flat (snd kv)) (add_child result tg v).
Proof.
  intros Hl Hv Hr. unfold add_child.
  destruct (dict_get tg result) as [old|] eqn:E; [|now apply dict_set_flat].
  apply dict_set_flat; [|exact Hr].
  apply (dict_get_flat _ _ _ Hr) in E. apply flat_list.
  assert (Hlast : Forall (fun v => is_list v = false /\ flat v) [v]).
  { apply List.Forall_cons; [now split | apply List.Forall_nil]. }
  destruct old as [s | d | l].
  - split; [cbn; lia|]. apply List.Forall_cons; [now split | exact Hlast].
  - split; [cbn; lia|]. apply List.Forall_cons; [now split | exact Hlast].
  - apply flat_list in E as [Hlen Hitems]. split.
    + rewrite length_app. lia.
    + apply Forall_app. split; [exact Hitems | exact Hlast].
Qed.

Lemma add_child_not_empty result tg v : add_child result tg v <> [].
Proof.
  assert (H : forall x d, dict_set tg x d <> []).
  { intros x [|[k' v'] d]; cbn [dict_set]; [discriminate|].
    destruct (String.eqb k' tg); discriminate. }
  unfold add_child. destruct (dict_get tg result); apply H.
Qed.

Lemma flatten_not_empty cs acc :
  acc <> [] \/ cs <> [] ->
  fold_left (fun result child => add_child result (tag child) (child_value child))
            cs acc <> [].
Proof.
  revert acc. induction cs as [|c cs IH]; intros acc H; cbn [fold_left].
  - destruct H as [H | H]; [exact H | congruence].
  - apply IH. left. apply add_child_not_empty.
Qed.

(** X8.  The shape of what the flattener returns: the record is empty
    exactly when the element has no child; a nested record is never empty;
    a list has at least two items and no item of a list is itself a list.
    So the type tests of the importers ([isinstance(x, dict)],
    [isinstance(x, str)]) meet only text, non-empty dicts, and lists of
    two or more of those. *)
Theorem xml_to_dict_flat (e : element) :
  (xml_to_dict e = [] <-> children e = []) /\
  Forall (fun kv => flat (snd kv)) (xml_to_dict e).
Proof.
  split.
  - rewrite xml_to_dict_fold. split.
    + intros H. destruct (children e) as [|c cs]; [reflexivity|].
      exfalso. revert H. apply flatten_not_empty. right. discriminate.
    + now intros ->.
  - induction e as [t x cs IH] using element_ind_nested.
    rewrite xml_to_dict_fold. cbn [children].
    assert (H : forall acc, Forall (fun kv => flat (snd kv)) acc ->
      Forall (fun kv => flat (snd kv))
        (fold_left
           (fun result child => add_child result (tag child) (child_value child))
           cs acc)).
    { induction IH as [|c cs Hc _ IHcs]; intros acc Hacc; [exact Hacc|].
      cbn [fold_left]. apply IHcs.
      unfold child_value. destruct (children c) as [|c1 cs1] eqn:Ec.
      - now apply add_child_flat.
      - apply add_child_flat; [reflexivity | | exact Hacc].
        apply flat_dict. split; [|exact Hc].
        rewrite xml_to_dict_fold, Ec. apply flatten_not_empty. right. discriminate. }
    apply H. constructor.
Qed.

(** ** More on the sanitizer *)

Module SanitizerMore.
Import Sanitizer SanitizerFacts.
Local Open Scope N_scope.

Lemma sub_without_match text : search text = None -> sub text = text.
Proof.
  induction text as [|c rest IH]; [reflexivity|].
  unfold sub in *. rewrite search_cons, sub_from_cons.
  destruct (matches encoding_pattern (c :: rest)); [discriminate|].
  destruct (search rest); [discriminate|]. intros _. now rewrite IH.
Qed.

Lemma sanitize_one_piece (infile : list byte) :
  search (strip (map cp437_decode (fst (read (1024 * 1024) infile)))) = None ->
  sanitize_bytes infile = utf8_encode (strip (map cp437_decode infile)).
Proof.
  intros H. rewrite sanitize_bytes_unfold, (sub_without_match _ H).
  rewrite <- utf8_encode_app, <- strip_app, <- map_app.
  now rewrite <- read_app.
Qed.

(** X9.  When the first chunk carries no declaration to rewrite, the 1 MB
    chunking leaves no trace: the output is the UTF-8 encoding of the whole
    input decoded from CP437 with the control characters removed, as if it
    had been read in one piece. *)
Theorem sanitize_without_declaration (infile : list byte) :
  search (strip (map cp437_decode (fst (read (1024 * 1024) infile)))) = None ->
  sanitize_bytes infile = utf8_encode (strip (map cp437_decode infile)).
Proof. exact (sanitize_one_piece infile). Qed.

Lemma sanitize_without_declaration_witness :
  sanitize_bytes (list_byte_of_string "<a>x</a>") =
  utf8_encode (strip (map cp437_decode (list_byte_of_string "<a>x</a>"))).
Proof.
  apply (sanitize_without_declaration (list_byte_of_string "<a>x</a>")).
  vm_compute. reflexivity.
Defined.

Lemma ascii_byte_kept b :
  Byte.to_N b < 128 -> invalid_chars (Byte.to_N b) = false ->
  strip [cp437_decode b] = [cp437_decode b] /\ utf8_char (cp437_decode b) = [b].
Proof.
  destruct b; vm_compute; intros H1 H2; try discriminate H1; try discriminate H2;
    split; reflexivity.
Qed.

Lemma ascii_text_kept (l : list byte) :
  Forall (fun b => Byte.to_N b < 128 /\ invalid_chars (Byte.to_N b) = false) l ->
  utf8_encode (strip (map cp437_decode l)) = l.
Proof.
  induction 1 as [|b l [H1 H2] _ IH]; [reflexivity|].
  destruct (ascii_byte_kept b H1 H2) as [Hs Hu].
  change (map cp437_decode (b :: l)) with ([cp437_decode b] ++ map cp437_decode l).
  rewrite strip_app, utf8_encode_app, Hs, IH.
  unfold utf8_encode. cbn [map concat]. rewrite Hu. reflexivity.
Qed.

(** X10.  An ASCII document without control characters other than tab, LF
    and CR, and without the declaration pattern in its first chunk, comes
    out byte for byte as it went in. *)
Theorem sanitize_keeps_clean_ascii (infile : list byte) :
  Forall (fun b => Byte.to_N b < 128 /\ invalid_chars (Byte.to_N b) = false) infile ->
  search (strip (map cp437_decode (fst (read (1024 * 1024) infile)))) = None ->
  sanitize_bytes infile = infile.
Proof.
  intros Hascii H. rewrite sanitize_bytes_unfold, (sub_without_match _ H).
  rewrite <- utf8_encode_app, <- strip_app, <- map_app, <- read_app.
  now apply ascii_text_kept.
Qed.

Lemma sanitize_keeps_clean_ascii_witness :
  sanitize_bytes (list_byte_of_string "<a>x</a>") = list_byte_of_string "<a>x</a>".
Proof.
  apply (sanitize_keeps_clean_ascii (list_byte_of_string "<a>x</a>")).
  - repeat (constructor; [split; reflexivity|]). constructor.
  - vm_compute. reflexivity.
Defined.

Lemma matches_length p text :
  matches p text = true -> (length p <= length text)%nat.
Proof.
  revert text. induction p as [|i p IH]; intros [|c text]; cbn [matches length];
    try lia; try discriminate.
  intros H. apply andb_prop in H as [_ H]. apply IH in H. lia.
Qed.

Lemma length_sub_from k text :
  length (sub_from k text) = (length text - k)%nat.
Proof.
  remember (length text) as n eqn:En. revert k text En.
  induction n as [n IH] using lt_wf_ind. intros k [|c rest] ->; [reflexivity|].
  rewrite sub_from_cons. destruct k as [|k].
  - destruct (matches encoding_pattern (c :: rest)) eqn:Em.
    + apply matches_length in Em. cbn [length] in Em |- *.
      rewrite length_app, (IH (length rest)) by (cbn; lia || reflexivity).
      change (length replacement) with (length encoding_pattern).
      change (length encoding_pattern) with 16%nat in *. cbn [Nat.pred]. lia.
    + cbn [length]. rewrite (IH (length rest)) by (cbn; lia || reflexivity). lia.
  - cbn [length]. rewrite (IH (length rest)) by (cbn; lia || reflexivity). lia.
Qed.

Lemma invalid_decoded b :
  invalid_chars (cp437_decode b) = invalid_chars (Byte.to_N b).
Proof. destruct b; reflexivity. Qed.

(** X11.  The sanitizer removes the bytes 0x00-0x08, 0x0B, 0x0C, 0x0E-0x1F
    and neither adds nor drops any other character: the text it writes has
    exactly as many characters as the input has other bytes.  The rewrite
    of the declaration keeps the length, the pattern and its replacement
    being sixteen characters each. *)
Theorem sanitize_text_length (infile : list byte) :
  sanitize_bytes infile =
  utf8_encode
    (sub (strip (map cp437_decode (fst (read (1024 * 1024) infile)))) ++
     strip (map cp437_decode (snd (read (1024 * 1024) infile)))) /\
  length
    (sub (strip (map cp437_decode (fst (read (1024 * 1024) infile)))) ++
     strip (map cp437_decode (snd (read (1024 * 1024) infile)))) =
  length (List.filter (fun b => negb (invalid_chars (Byte.to_N b))) infile).
Proof.
  split; [rewrite utf8_encode_app; apply sanitize_bytes_unfold|].
  rewrite length_app. unfold sub. rewrite length_sub_from, Nat.sub_0_r.
  rewrite <- length_app, <- strip_app, <- map_app, <- read_app.
  unfold strip. induction infile as [|b l IH]; [reflexivity|].
  cbn [map List.filter]. rewrite invalid_decoded.
  destruct (invalid_chars (Byte.to_N b)); cbn [negb length]; now rewrite IH.
Qed.

Lemma first_item_e c s :
  matches encoding_pattern (c :: s) = true -> lower c = 0x65.
Proof.
  change encoding_pattern with (Lit 0x65 :: tl encoding_pattern).
  cbn [matches item_matches]. intros H. apply andb_prop in H as [H _].
  now apply N.eqb_eq in H.
Qed.

Lemma search_skip c s :
  lower c <> 0x65 -> search (c :: s) = option_map S (search s).
Proof.
  intros H. rewrite search_cons.
  destruct (matches encoding_pattern (c :: s)) eqn:E; [|reflexivity].
  now apply first_item_e in E.
Qed.

Lemma search_replacement s :
  search s = None -> search (replacement ++ s) = None.
Proof.
  intros H.
  change replacement with
    ([0x65; 0x6e; 0x63; 0x6f; 0x64; 0x69; 0x6e; 0x67; 0x3d; 0x22;
      0x55; 0x54; 0x46; 0x2d; 0x38; 0x22] : list N).
  cbn [app]. rewrite search_cons.
  match goal with
  | |- (if ?m then _ else _) = _ =>
      assert (E : m = false) by (vm_compute; reflexivity); rewrite E; clear E
  end.
  rewrite !search_skip by (vm_compute; discriminate).
  now rewrite H.
Qed.

Lemma skipn_tail {A} j (l : list A) x q :
  skipn j l = x :: q -> skipn (S j) l = q.
Proof.
  revert l. induction j as [|j IH]; intros [|y l]; cbn [skipn]; try discriminate.
  - intros [= _ <-]. now destruct l.
  - intros H. destruct l as [|z l]; [now destruct j|]. now apply IH in H.
Qed.

Lemma suffix_on_replacement j s :
  matches (skipn j encoding_pattern) (replacement ++ s) = true ->
  skipn j encoding_pattern = [].
Proof.
  do 17 (destruct j as [|j]; [vm_compute; intros H; discriminate H || reflexivity|]).
  intros _. reflexivity.
Qed.

(** A suffix of the pattern that matches in the rewritten text matched in
    the text before the rewriting, at the same place. *)
Lemma matches_sub j text :
  matches (skipn j encoding_pattern) (sub text) = true ->
  matches (skipn j encoding_pattern) text = true.
Proof.
  revert j. induction text as [|c rest IH]; intros j; [exact (fun H => H)|].
  unfold sub. rewrite sub_from_cons.
  destruct (matches encoding_pattern (c :: rest)) eqn:Em.
  - intros H. apply suffix_on_replacement in H. now rewrite H.
  - fold (sub rest). destruct (skipn j encoding_pattern) as [|i q] eqn:Eq;
      [reflexivity|].
    cbn [matches]. intros H. apply andb_prop in H as [Hi Hq].
    apply skipn_tail in Eq. rewrite <- Eq in Hq |- *.
    apply IH in Hq. now rewrite Hi, Hq.
Qed.

Lemma search_sub_from k text : search (sub_from k text) = None.
Proof.
  revert k. induction text as [|c rest IH]; intros k; [reflexivity|].
  rewrite sub_from_cons. destruct k as [|k]; [|apply IH].
  destruct (matches encoding_pattern (c :: rest)) eqn:Em.
  - apply search_replacement, IH.
  - rewrite search_cons. fold (sub rest).
    destruct (matches encoding_pattern (c :: sub rest)) eqn:E.
    + exfalso. pose proof (matches_sub 0 (c :: rest)) as H.
      unfold sub in H, E. rewrite sub_from_cons, Em in H.
      apply H in E. change (matches encoding_pattern (c :: rest) = true) in E.
      congruence.
    + unfold sub. now rewrite IH.
Qed.

(** X12.  No CP437 declaration survives in the first chunk: in the text
    written for it the pattern matches nowhere, for every input.  The
    replacement cannot complete or start a new match with the characters
    around it, so one pass of [sub] is enough. *)
Theorem sanitize_declaration_gone (infile : list byte) :
  sanitize_bytes infile =
  utf8_encode (sub (strip (map cp437_decode (fst (read (1024 * 1024) infile))))) ++
  utf8_encode (strip (map cp437_decode (snd (read (1024 * 1024) infile)))) /\
  search (sub (strip (map cp437_decode (fst (read (1024 * 1024) infile))))) = None.
Proof.
  split; [apply sanitize_bytes_unfold | apply search_sub_from].
Qed.

Lemma in_all_bytes b : In b all_bytes.
Proof.
  unfold all_bytes. apply in_map_iff. exists (N.to_nat (Byte.to_N b)). split.
  - rewrite N2Nat.id. unfold byte_of. now rewrite Byte.of_to_N.
  - apply in_seq. pose proof (Byte.to_N_bounded b). lia.
Qed.

Lemma prefix_free_holds : prefix_free = true.
Proof. vm_compute. reflexivity. Qed.

Lemma app_eq_prefix (l1 l2 r1 r2 : list byte) :
  l1 ++ r1 = l2 ++ r2 -> is_prefix l1 l2 = true \/ is_prefix l2 l1 = true.
Proof.
  revert l2. induction l1 as [|a l1 IH]; intros [|b l2]; cbn [app is_prefix];
    try (now left); try (now right).
  intros [= -> H]. rewrite (Byte.byte_dec_lb (@eq_refl byte b)). cbn [andb]. now apply IH.
Qed.

Lemma prefix_free_spec :
  prefix_free = true ->
  forall x y, is_prefix (written_for x) (written_for y) = true -> x = y.
Proof.
  unfold prefix_free. intros F x y Hp.
  rewrite forallb_forall in F. specialize (F x (in_all_bytes x)).
  rewrite forallb_forall in F. specialize (F y (in_all_bytes y)).
  rewrite Hp in F. cbn [negb] in F. rewrite orb_false_r in F.
  now apply Byte.byte_dec_bl in F.
Qed.

Lemma written_for_head b1 b2 r1 r2 :
  written_for b1 ++ r1 = written_for b2 ++ r2 -> b1 = b2.
Proof.
  intros H. pose proof (prefix_free_spec prefix_free_holds) as G.
  apply app_eq_prefix in H as [H | H]; [now apply G | symmetry; now apply G].
Qed.

Lemma written_for_not_empty b : written_for b <> [].
Proof. destruct b; discriminate. Qed.

Lemma encode_decoded_inj (l1 l2 : list byte) :
  utf8_encode (map cp437_decode l1) = utf8_encode (map cp437_decode l2) -> l1 = l2.
Proof.
  unfold utf8_encode. revert l2.
  induction l1 as [|b1 l1 IH]; intros [|b2 l2]; cbn [map concat]; [reflexivity | | |].
  - intros H. symmetry in H. apply app_eq_nil in H as [H _].
    now apply written_for_not_empty in H.
  - intros H. apply app_eq_nil in H as [H _]. now apply written_for_not_empty in H.
  - intros H. fold (written_for b1) (written_for b2) in H.
    pose proof (written_for_head _ _ _ _ H) as ->.
    apply app_inv_head in H. now rewrite (IH l2 H).
Qed.

Lemma strip_kept (l : list byte) :
  Forall (fun b => invalid_chars (Byte.to_N b) = false) l ->
  strip (map cp437_decode l) = map cp437_decode l.
Proof.
  induction 1 as [|b l Hb _ IH]; [reflexivity|].
  unfold strip in *. cbn [map List.filter]. rewrite invalid_decoded, Hb.
  cbn [negb]. now rewrite IH.
Qed.

(** X13.  Apart from the control bytes it removes and the declaration it
    rewrites, the sanitizer loses nothing: two different inputs without
    those bytes and without the declaration pattern in their first chunk
    give different outputs.  No two CP437 bytes decode to the same
    character, and the UTF-8 sequences written can be told apart. *)
Theorem sanitize_lossless (in1 in2 : list byte) :
  Forall (fun b => invalid_chars (Byte.to_N b) = false) in1 ->
  Forall (fun b => invalid_chars (Byte.to_N b) = false) in2 ->
  search (strip (map cp437_decode (fst (read (1024 * 1024) in1)))) = None ->
  search (strip (map cp437_decode (fst (read (1024 * 1024) in2)))) = None ->
  in1 <> in2 ->
  sanitize_bytes in1 <> sanitize_bytes in2.
Proof.
  intros K1 K2 S1 S2 Hne E. apply Hne.
  rewrite (sanitize_one_piece _ S1), (sanitize_one_piece _ S2) in E.
  rewrite (strip_kept _ K1), (strip_kept _ K2) in E.
  now apply encode_decoded_inj.
Qed.

Lemma sanitize_lossless_witness :
  sanitize_bytes [x80; x3c] <> sanitize_bytes [xe1; x3c].
Proof.
  apply (sanitize_lossless [x80; x3c] [xe1; x3c]).
  - repeat (constructor; [reflexivity|]). constructor.
  - repeat (constructor; [reflexivity|]). constructor.
  - vm_compute. reflexivity.
  - vm_compute. reflexivity.
  - discriminate.
Defined.

End SanitizerMore.

(** ** Finding the exports *)

Lemma last_cons {A} (x : A) l d : List.last (x :: l) d = List.last l x.
Proof.
  revert x d. induction l as [|y l IH]; intros x d; [reflexivity|].
  change (List.last (x :: y :: l) d) with (List.last (y :: l) d).
  now rewrite !IH.
Qed.

Lemma find_loop (l : list string) (a b : option string) :
  fold_left find_step l (a, b) =
  (List.last (map Some (List.filter is_base_name l)) a,
   List.last (map Some (List.filter is_plus_name l)) b).
Proof.
  revert a b. induction l as [|f l IH]; intros a b; [reflexivity|].
  cbn [fold_left List.filter]. unfold find_step at 2, is_base_name.
  fold (is_plus_name f).
  destruct (is_plus_name f); cbn [negb andb map].
  - now rewrite IH, last_cons.
  - destruct (contains "legends" (lower f)); cbn [map]; rewrite IH;
      now rewrite ?last_cons.
Qed.

(** X14.  Of the [*.xml] names of the directory, [find_xml_files] keeps
    for the plus export the last one whose lower-cased name contains
    [legends_plus], and for the base export the last one that contains
    [legends] without containing [legends_plus]; an earlier match is
    overwritten, and a plus export is never taken for the base export. *)
Theorem find_xml_files_keeps_last (names : list string) :
  find_xml_files names =
  (last_such is_base_name (glob_xml names),
   last_such is_plus_name (glob_xml names)).
Proof. unfold find_xml_files, last_such. apply find_loop. Qed.

(** ** The world record *)

Section WorldInfo.

Variable iterparse : list byte -> list string -> list element * bool.

Lemma world_info_loop_result elems complete name (c : conn) :
  world_info_loop elems complete name c =
  (match List.find is_altname elems with
   | Some a =>
       Ok (match name with
           | Some s => Some s
           | None => first_name (before_altname elems)
           end, text a)
   | None =>
       if complete
       then Ok (match name with
                | Some s => Some s
                | None => first_name elems
                end, None)
       else Raise XMLSyntaxError
   end, c).
Proof.
  revert name. induction elems as [|e elems IH]; intros name.
  - cbn [world_info_loop List.find first_name].
    destruct complete; destruct name; reflexivity.
  - cbn [world_info_loop List.find before_altname first_name]. unfold is_altname at 1 3.
    destruct (String.eqb (tag e) "name") eqn:En.
    + assert (Ea : String.eqb (tag e) "altname" = false).
      { apply String.eqb_eq in En. now rewrite En. }
      rewrite Ea. cbn [first_name]. rewrite En.
      destruct name as [s|]; cbn [andb].
      * rewrite bool_decide_eq_false_2 by discriminate. apply IH.
      * rewrite bool_decide_eq_true_2 by reflexivity. rewrite IH.
        now destruct (text e).
    + cbn [andb]. destruct (String.eqb (tag e) "altname") eqn:Ea.
      * unfold ret. now destruct name.
      * cbn [first_name]. rewrite En. apply IH.
Qed.

(** X15.  [get_world_info] returns, with the connection untouched, the
    text of the first [altname] element and the text of the first [name]
    element before it that has a text; a syntax error later in the document
    is then not seen, the loop having stopped.  Without an [altname]
    element the whole document is read: the altname is [None], and a
    document that is not well-formed raises. *)
Theorem get_world_info_result (file : list byte) (c : conn) :
  get_world_info iterparse file c =
  (match List.find is_altname (fst (iterparse file ["name"; "altname"])) with
   | Some a =>
       Ok (first_name (before_altname (fst (iterparse file ["name"; "altname"]))),
           text a)
   | None =>
       if snd (iterparse file ["name"; "altname"])
       then Ok (first_name (fst (iterparse file ["name"; "altname"])), None)
       else Raise XMLSyntaxError
   end, c).
Proof.
  unfold get_world_info.
  destruct (iterparse file ["name"; "altname"]) as [elems complete].
  cbn [fst snd]. apply world_info_loop_result.
Qed.

End WorldInfo.

(** ** Fields bound as statement parameters *)

Lemma adapt_field t e :
  adapt (PVal (dict_get t (xml_to_dict e))) =
  if scalar t e
  then Some (match dict_get t (xml_to_dict e) with
             | Some (VStr s) => SText s
             | _ => SNull
             end)
  else None.
Proof.
  rewrite flattened_field. unfold scalar.
  destruct (occurrences t e) as [|c [|c' cs]]; [reflexivity| |reflexivity].
  cbn [map promote]. unfold child_value. now destruct (children c).
Qed.

Lemma adapt_fields ts e (rest : list param) :
  adapt_all (map (fun t => PVal (dict_get t (xml_to_dict e))) ts ++ rest) =
  if forallb (fun t => scalar t e) ts
  then option_map
         (app (map (fun t => match dict_get t (xml_to_dict e) with
                             | Some (VStr s) => SText s
                             | _ => SNull
                             end) ts))
         (adapt_all rest)
  else None.
Proof.
  induction ts as [|t ts IH]; cbn [map app forallb adapt_all].
  - now destruct (adapt_all rest).
  - rewrite adapt_field, IH. destruct (scalar t e); [|reflexivity].
    cbn [andb]. destruct (forallb _ ts); [|reflexivity].
    now destruct (adapt_all rest).
Qed.

(** X16.  Each callback that sends a single statement binds its fields as
    they come out of the flattener, so it goes through exactly when every
    bound tag occurs at most once in the element and then without child
    elements; a record that repeats such a tag, or nests elements under
    it, makes the callback raise, with the connection as it was. *)
Theorem callback_needs_scalar_fields (i : importer) (e : element) (c : conn) :
  single_statement i = true ->
  if forallb (fun t => scalar t e) (bound_tags i)
  then exists c', callback i (xml_to_dict e) c = (Ok tt, c')
  else callback i (xml_to_dict e) c = (Raise InterfaceError, c).
Proof.
  intros Hi.
  assert (H : forall s rest,
    (exists vals, adapt_all rest = Some vals) ->
    if forallb (fun t => scalar t e) (bound_tags i)
    then exists c',
      execute s (map (fun t => PVal (dict_get t (xml_to_dict e))) (bound_tags i)
                 ++ rest) c = (Ok tt, c')
    else
      execute s (map (fun t => PVal (dict_get t (xml_to_dict e))) (bound_tags i)
                 ++ rest) c = (Raise InterfaceError, c)).
  { intros s rest [vals Hrest]. unfold execute. rewrite adapt_fields, Hrest.
    destruct (forallb _ (bound_tags i)); [|reflexivity].
    cbn [option_map]. now eexists. }
  destruct i; try discriminate Hi; cbn [callback bound_tags] in *.
  - apply (H (InsertOrReplaceInto "regions" ["id"; "name"; "type"]) []).
    now exists [].
  - apply (H (InsertOrReplaceInto "underground_regions" ["id"; "type"; "depth"]) []).
    now exists [].
  - apply (H (InsertOrReplaceInto "sites"
                ["id"; "name"; "type"; "coords"; "rectangle"]) []).
    now exists [].
  - apply (H (InsertInto "landmasses" ["id"; "name"; "coord_1"; "coord_2"]) []).
    now exists [].
  - apply (H (InsertInto "mountain_peaks"
                ["id"; "name"; "coords"; "height"; "is_volcano"])
             [PInt (if dict_mem "is_volcano" (xml_to_dict e) then 1 else 0)]).
    now eexists.
  - apply (H (InsertInto "hf_relationships"
                ["source_hf"; "target_hf"; "relationship"; "year"]) []).
    now exists [].
Qed.

Lemma callback_needs_scalar_fields_witness :
  callback ImportRegion (xml_to_dict region_with_two_names)
    (Conn ∅ ∅ ∅) = (Raise InterfaceError, Conn ∅ ∅ ∅).
Proof.
  apply (callback_needs_scalar_fields ImportRegion region_with_two_names (Conn ∅ ∅ ∅)).
  reflexivity.
Defined.

Lemma dict_mem_flattened t e :
  dict_mem t (xml_to_dict e) = existsb (fun ch => String.eqb (tag ch) t) (children e).
Proof.
  unfold dict_mem. rewrite flattened_field. unfold occurrences.
  induction (children e) as [|ch cs IH]; [reflexivity|].
  cbn [List.filter existsb].
  destruct (String.eqb (tag ch) t); cbn [orb]; [|exact IH].
  cbn [map]. now destruct (map child_value _).
Qed.

(** X17.  The volcano flag of a peak records the presence of the
    [is_volcano] child, not its content: a peak that is imported gets one
    new row, and the flag of that row is 1 when the element has a child
    tagged [is_volcano], empty or not, and 0 when it has none. *)
Theorem import_peak_volcano_flag (e : element) (c c' : conn) :
  import_peak (xml_to_dict e) c = (Ok tt, c') ->
  exists r,
    table "mountain_peaks" (working c') = table "mountain_peaks" (working c) ++ [r] /\
    col "is_volcano" r =
    SInt (if existsb (fun ch => String.eqb (tag ch) "is_volcano") (children e)
          then 1 else 0).
Proof.
  unfold import_peak, execute. rewrite dict_mem_flattened.
  generalize (existsb (fun ch => String.eqb (tag ch) "is_volcano") (children e)).
  intros flag.
  destruct (adapt_all _) as [vals|] eqn:E; [|discriminate].
  intros [= <-]. cbn [working run_statement].
  eexists. split; [rewrite table_insert, decide_True by reflexivity; reflexivity|].
  cbn [adapt_all] in E.
  repeat match type of E with
  | context [adapt (PVal ?p)] => destruct (adapt (PVal p)); [|discriminate E]
  end.
  cbn [adapt] in E. injection E as <-. reflexivity.
Qed.

Lemma import_peak_volcano_flag_witness :
  exists r,
    table "mountain_peaks"
      (working (snd (import_peak (xml_to_dict peak_with_marker) (Conn ∅ ∅ ∅)))) =
    table "mountain_peaks" (working (Conn ∅ ∅ ∅)) ++ [r] /\
    col "is_volcano" r = SInt 1.
Proof.
  apply (import_peak_volcano_flag peak_with_marker (Conn ∅ ∅ ∅)).
  reflexivity.
Defined.

(** X20.  The fields read as [data.get(a) or data.get(b)] (the name of
    an artifact, the site, civilisation and slayer of an event) take the
    second tag exactly when the first is absent from the element or is a
    single leaf without text; a first tag with any text, with child
    elements, or repeated, is used as it is. *)
Theorem fallback_when_blank (e : element) (a b : string) :
  py_or (dict_get a (xml_to_dict e)) (dict_get b (xml_to_dict e)) =
  if blank a e then dict_get b (xml_to_dict e) else dict_get a (xml_to_dict e).
Proof.
  unfold py_or, blank. rewrite (flattened_field a).
  destruct (occurrences a e) as [|c [|c' cs]]; [reflexivity| |reflexivity].
  cbn [map promote]. unfold child_value.
  destruct (children c) as [|c1 cs1] eqn:Ec; cbn [truthy].
  - now destruct (String.eqb (text_or_empty c) "").
  - destruct (xml_to_dict c) eqn:Ed; [|reflexivity].
    exfalso. revert Ed. rewrite xml_to_dict_fold, Ec.
    apply flatten_not_empty. right. discriminate.
Qed.

(** ** An export that cannot be opened *)

Section Unreadable.

Variable iterparse : list byte -> list string -> list element * bool.

Lemma mkstemp_leaves_file (temp : gmap string (list byte)) content :
  temp ⊂ <[mkstemp temp := content]> temp.
Proof.
  apply insert_subset. apply not_elem_of_dom. unfold mkstemp. apply is_fresh.
Qed.

(** X19.  The exports are sanitized before the [try] block and before the
    database is opened.  When both are found but one of them cannot be
    opened, run_import raises the error of [open]; the database is as it
    was, and the temporary files made up to that point are left behind:
    the temporary directory has strictly grown. *)
Theorem run_import_unreadable_export (w : world)
    (LEGENDS_FILE LEGENDS_PLUS_FILE : string) :
  find_xml_files (map fst (base_dir w)) = (Some LEGENDS_FILE, Some LEGENDS_PLUS_FILE) ->
  open_rb LEGENDS_FILE (base_dir w) = None \/
  open_rb LEGENDS_PLUS_FILE (base_dir w) = None ->
  fst (run_import iterparse w) = Raise PermissionError /\
  store (snd (run_import iterparse w)) = store w /\
  temp_dir w ⊂ temp_dir (snd (run_import iterparse w)).
Proof.
  intros Hfind Hopen. unfold run_import. rewrite Hfind.
  unfold sanitize_xml_file. cbn [base_dir temp_dir store].
  destruct (open_rb LEGENDS_FILE (base_dir w)) as [in1|] eqn:E1.
  - destruct Hopen as [Hopen | Hopen]; [discriminate|].
    cbn [base_dir temp_dir store]. rewrite Hopen.
    cbn [fst snd store temp_dir]. split; [reflexivity|]. split; [reflexivity|].
    eapply strict_trans_l; [apply mkstemp_leaves_file|].
    apply strict_include, mkstemp_leaves_file.
  - cbn [fst snd store temp_dir]. split; [reflexivity|]. split; [reflexivity|].
    apply mkstemp_leaves_file.
Qed.

End Unreadable.

Lemma run_import_unreadable_export_witness :
  fst (run_import no_elements plus_unreadable) = Raise PermissionError /\
  store (snd (run_import no_elements plus_unreadable)) = store plus_unreadable /\
  temp_dir plus_unreadable ⊂ temp_dir (snd (run_import no_elements plus_unreadable)).
Proof.
  apply (run_import_unreadable_export no_elements plus_unreadable
           "region1-legends.xml" "region1-legends_plus.xml").
  - vm_compute. reflexivity.
  - right. vm_compute. reflexivity.
Defined.
